(** * fixed-cropper: the canvas placement model of [fixed_cropper/main_window.py]

    A shallow embedding of the arithmetic that places one image inside the
    fixed output frame: initial placement, the fit and align commands, the
    anchor-preserving rescales, the position clamp, the export renderer's
    canvas and resize geometry, and the two "recent values" lists.

    Numbers.  Python's [int] is [Z].  Python's [float] (and Qt's [qreal]) is
    idealised as the exact rationals [Q]: every formula is transcribed operator
    by operator, but it is evaluated without rounding error, so equalities
    between computed coordinates are stated with [==] ([Qeq]).  The concrete
    scenarios are replayed over binary64 numbers at the end of the file.

    Widgets.  Only the fields of [MainWindow] that the placement code reads or
    writes are kept.  Calls that only refresh the display
    ([_update_image_scale_overlay], [fit_canvas_to_window], menu rebuilding,
    message boxes) have no effect on those fields and are left out. *)

From Stdlib Require Import ZArith QArith Qround Qabs Qminmax Qfield Lqa Lia.
From Stdlib Require Import Bool String Ascii List.
From Stdlib Require Import Floats.
Import ListNotations.

Local Open Scope Q_scope.

(** ** Python built-ins used by the placement code *)

Module Py.

(** [float(n)] for an [int], and the implicit promotion in [int * float]. *)
Definition float (n : Z) : Q := inject_Z n.

(** [min(a, b)] keeps its first argument unless the second is smaller. *)
Definition min (a b : Q) : Q := if Qlt_le_dec b a then b else a.

(** [max(a, b)] keeps its first argument unless the second is greater. *)
Definition max (a b : Q) : Q := if Qlt_le_dec a b then b else a.

Definition abs (a : Q) : Q := Qabs a.

(** [a / b] on two [int]s: true division; [None] is [ZeroDivisionError]. *)
Definition truediv (a b : Z) : option Q :=
  if (b =? 0)%Z then None else Some (inject_Z a / inject_Z b).

(** [round(x)] with one argument: nearest integer, ties to the even one. *)
Definition round (x : Q) : Z :=
  let f := Qfloor x in
  match Qcompare (x - inject_Z f) (1 # 2) with
  | Lt => f
  | Gt => (f + 1)%Z
  | Eq => if Z.even f then f else (f + 1)%Z
  end.

(** [max(1, n)] on [int]s. *)
Definition max_int (a b : Z) : Z := if (a <? b)%Z then b else a.

End Py.

(** ** The Qt value types the code manipulates *)

Module QPointF.
Record t : Type := mk { x : Q; y : Q }.

Definition add (p q : t) : t := mk (x p + x q) (y p + y q).
Definition sub (p q : t) : t := mk (x p - x q) (y p - y q).

(** Equality of coordinates as numbers. *)
Definition eq (p q : t) : Prop := x p == x q /\ y p == y q.
End QPointF.

Module QRectF.
Record t : Type := mk { x : Q; y : Q; width : Q; height : Q }.

(** [QRectF::center()]. *)
Definition center (r : t) : QPointF.t :=
  QPointF.mk (x r + width r / 2) (y r + height r / 2).
End QRectF.

Module QPixmap.
Record t : Type := mk { width : Z; height : Z }.

(** A null pixmap has no pixels. *)
Definition isNull (pm : t) : bool := ((width pm <=? 0) || (height pm <=? 0))%Z.
End QPixmap.

Module QColor.
(** Channels are in [0, 255]. *)
Record t : Type := mk { red : Z; green : Z; blue : Z }.

Definition hex_digit_upper (d : Z) : ascii :=
  if (d <? 10)%Z then ascii_of_nat (48 + Z.to_nat d)
  else ascii_of_nat (55 + Z.to_nat d).

Definition hex2_upper (c : Z) : string :=
  String (hex_digit_upper (c / 16)) (String (hex_digit_upper (c mod 16)) EmptyString).

(** [c.name().upper()]: the string "#RRGGBB". *)
Definition name_upper (c : t) : string :=
  String "#"%char (hex2_upper (red c) ++ hex2_upper (green c) ++ hex2_upper (blue c))%string.
End QColor.

(** [OutputSize]: the dataclass of the frame's pixel size. *)
Module OutputSize.
Record t : Type := mk { w : Z; h : Z }.

Definition rect (o : t) : QRectF.t :=
  QRectF.mk 0 0 (Py.float (w o)) (Py.float (h o)).
End OutputSize.

(** [MovableImageItem]: a [QGraphicsPixmapItem] at the top level of the scene,
    never rotated, with the default transform origin (0, 0).  Its scene
    transform is therefore [p |-> pos + scale * p]. *)
Module MovableImageItem.
Record t : Type := mk { pixmap : QPixmap.t; scale : Q; pos : QPointF.t }.

(** [MovableImageItem(pixmap)]: a fresh item has scale 1 at the origin. *)
Definition new (pm : QPixmap.t) : t := mk pm 1 (QPointF.mk 0 0).

Definition setScale (it : t) (s : Q) : t := mk (pixmap it) s (pos it).
Definition setPos (it : t) (p : QPointF.t) : t := mk (pixmap it) (scale it) p.

(** [mapToScene]: item coordinates to scene (frame) coordinates. *)
Definition mapToScene (it : t) (p : QPointF.t) : QPointF.t :=
  QPointF.mk (QPointF.x (pos it) + scale it * QPointF.x p)
             (QPointF.y (pos it) + scale it * QPointF.y p).

(** [mapFromScene]: the inverse transform.  It is Qt's only where the scale
    is not zero; the placement code keeps the scale positive. *)
Definition mapFromScene (it : t) (p : QPointF.t) : QPointF.t :=
  QPointF.mk ((QPointF.x p - QPointF.x (pos it)) / scale it)
             ((QPointF.y p - QPointF.y (pos it)) / scale it).
End MovableImageItem.

(** ** The main window's state *)

Record MainWindow : Type := mkMainWindow {
  output_size : OutputSize.t;
  bg_color : QColor.t;
  image_item : option MovableImageItem.t;
  _image_path : option string;
  _recent_sizes : list (Z * Z);
  _recent_bg_colors : list string
}.

Definition set_image_item (self : MainWindow) (it : option MovableImageItem.t) : MainWindow :=
  mkMainWindow (output_size self) (bg_color self) it (_image_path self)
               (_recent_sizes self) (_recent_bg_colors self).

(** [MainWindow.__init__] with the recent lists as [_load_recent_settings] read them. *)
Definition MainWindow_init (sizes : list (Z * Z)) (cols : list string) : MainWindow :=
  mkMainWindow (OutputSize.mk 1920 1080) (QColor.mk 255 255 255) None None sizes cols.

(** ** Position clamp *)

Definition _clamp_image_pos (self : MainWindow) : MainWindow :=
  match image_item self with
  | None => self
  | Some item =>
      let fw := OutputSize.w (output_size self) in
      let fh := OutputSize.h (output_size self) in
      let pm := MovableImageItem.pixmap item in
      let s := MovableImageItem.scale item in
      let iw := Py.float (QPixmap.width pm) * s in
      let ih := Py.float (QPixmap.height pm) * s in
      let pos := MovableImageItem.pos item in
      let x := QPointF.x pos in
      let y := QPointF.y pos in
      let min_x := - iw + Py.float fw * 0.25 in
      let max_x := Py.float fw - Py.float fw * 0.25 in
      let min_y := - ih + Py.float fh * 0.25 in
      let max_y := Py.float fh - Py.float fh * 0.25 in
      let x := Py.min max_x (Py.max min_x x) in
      let y := Py.min max_y (Py.max min_y y) in
      set_image_item self (Some (MovableImageItem.setPos item (QPointF.mk x y)))
  end.

(** The slot of [scene.changed]: any change of the scene re-clamps. *)
Definition _on_scene_changed (self : MainWindow) : MainWindow :=
  match image_item self with
  | Some _ => _clamp_image_pos self
  | None => self
  end.

(** ** Placement, fit and align commands *)

Definition frame_center (self : MainWindow) : QPointF.t :=
  QRectF.center (OutputSize.rect (output_size self)).

Definition _place_image_initial (self : MainWindow) : MainWindow :=
  match image_item self with
  | None => self
  | Some item =>
      let pm := MovableImageItem.pixmap item in
      if QPixmap.isNull pm then self
      else
        let fw := OutputSize.w (output_size self) in
        let fh := OutputSize.h (output_size self) in
        let iw := QPixmap.width pm in
        let ih := QPixmap.height pm in
        match Py.truediv fw iw, Py.truediv fh ih with
        | Some rw, Some rh =>
            let s := Py.min rw rh in
            let item := MovableImageItem.setScale item s in
            let scaled_w := Py.float iw * s in
            let scaled_h := Py.float ih * s in
            let item := MovableImageItem.setPos item
                          (QPointF.mk ((Py.float fw - scaled_w) / 2)
                                      ((Py.float fh - scaled_h) / 2)) in
            _clamp_image_pos (set_image_item self (Some item))
        | _, _ => self  (* ZeroDivisionError, raised before any change *)
        end
  end.

(** Called only with an image present (every caller checks [_require_image]). *)
Definition _apply_image_scale_and_center (self : MainWindow) (scale : Q) : MainWindow :=
  match image_item self with
  | None => self
  | Some item =>
      let fw := OutputSize.w (output_size self) in
      let fh := OutputSize.h (output_size self) in
      let item := MovableImageItem.setScale item scale in
      let iw := Py.float (QPixmap.width (MovableImageItem.pixmap item)) * scale in
      let ih := Py.float (QPixmap.height (MovableImageItem.pixmap item)) * scale in
      let item := MovableImageItem.setPos item
                    (QPointF.mk ((Py.float fw - iw) / 2) ((Py.float fh - ih) / 2)) in
      _clamp_image_pos (set_image_item self (Some item))
  end.

Definition fit_image_to_width (self : MainWindow) : MainWindow :=
  match image_item self with
  | None => self
  | Some item =>
      let fw := OutputSize.w (output_size self) in
      let iw := QPixmap.width (MovableImageItem.pixmap item) in
      match Py.truediv fw iw with
      | Some s => _apply_image_scale_and_center self s
      | None => self  (* ZeroDivisionError, raised before any change *)
      end
  end.

Definition reset_image_to_initial (self : MainWindow) : MainWindow :=
  match image_item self with
  | None => self
  | Some _ => _place_image_initial self
  end.

Definition fit_image_to_height (self : MainWindow) : MainWindow :=
  match image_item self with
  | None => self
  | Some item =>
      let fh := OutputSize.h (output_size self) in
      let ih := QPixmap.height (MovableImageItem.pixmap item) in
      match Py.truediv fh ih with
      | Some s => _apply_image_scale_and_center self s
      | None => self
      end
  end.

Definition fit_image_contain (self : MainWindow) : MainWindow :=
  match image_item self with
  | None => self
  | Some item =>
      let fw := OutputSize.w (output_size self) in
      let fh := OutputSize.h (output_size self) in
      let iw := QPixmap.width (MovableImageItem.pixmap item) in
      let ih := QPixmap.height (MovableImageItem.pixmap item) in
      match Py.truediv fw iw, Py.truediv fh ih with
      | Some rw, Some rh => _apply_image_scale_and_center self (Py.min rw rh)
      | _, _ => self
      end
  end.

Definition _scaled_image_size (item : MovableImageItem.t) : Q * Q :=
  let pm := MovableImageItem.pixmap item in
  let s := MovableImageItem.scale item in
  (Py.float (QPixmap.width pm) * s, Py.float (QPixmap.height pm) * s).

Definition align_center (self : MainWindow) : MainWindow :=
  match image_item self with
  | None => self
  | Some item =>
      let fw := OutputSize.w (output_size self) in
      let fh := OutputSize.h (output_size self) in
      let iw := fst (_scaled_image_size item) in
      let ih := snd (_scaled_image_size item) in
      let item := MovableImageItem.setPos item
                    (QPointF.mk ((Py.float fw - iw) / 2) ((Py.float fh - ih) / 2)) in
      _clamp_image_pos (set_image_item self (Some item))
  end.

Definition align_center_vertical (self : MainWindow) : MainWindow :=
  match image_item self with
  | None => self
  | Some item =>
      let fh := OutputSize.h (output_size self) in
      let ih := snd (_scaled_image_size item) in
      let x := QPointF.x (MovableImageItem.pos item) in
      let y := (Py.float fh - ih) / 2 in
      let item := MovableImageItem.setPos item (QPointF.mk x y) in
      _clamp_image_pos (set_image_item self (Some item))
  end.

Definition align_center_horizontal (self : MainWindow) : MainWindow :=
  match image_item self with
  | None => self
  | Some item =>
      let fw := OutputSize.w (output_size self) in
      let iw := fst (_scaled_image_size item) in
      let x := (Py.float fw - iw) / 2 in
      let y := QPointF.y (MovableImageItem.pos item) in
      let item := MovableImageItem.setPos item (QPointF.mk x y) in
      _clamp_image_pos (set_image_item self (Some item))
  end.

Definition align_top (self : MainWindow) : MainWindow :=
  match image_item self with
  | None => self
  | Some item =>
      let item := MovableImageItem.setPos item
                    (QPointF.mk (QPointF.x (MovableImageItem.pos item)) 0.0) in
      _clamp_image_pos (set_image_item self (Some item))
  end.

Definition align_bottom (self : MainWindow) : MainWindow :=
  match image_item self with
  | None => self
  | Some item =>
      let fh := OutputSize.h (output_size self) in
      let ih := snd (_scaled_image_size item) in
      let item := MovableImageItem.setPos item
                    (QPointF.mk (QPointF.x (MovableImageItem.pos item)) (Py.float fh - ih)) in
      _clamp_image_pos (set_image_item self (Some item))
  end.

Definition align_left (self : MainWindow) : MainWindow :=
  match image_item self with
  | None => self
  | Some item =>
      let item := MovableImageItem.setPos item
                    (QPointF.mk 0.0 (QPointF.y (MovableImageItem.pos item))) in
      _clamp_image_pos (set_image_item self (Some item))
  end.

Definition align_right (self : MainWindow) : MainWindow :=
  match image_item self with
  | None => self
  | Some item =>
      let fw := OutputSize.w (output_size self) in
      let iw := fst (_scaled_image_size item) in
      let item := MovableImageItem.setPos item
                    (QPointF.mk (Py.float fw - iw) (QPointF.y (MovableImageItem.pos item))) in
      _clamp_image_pos (set_image_item self (Some item))
  end.

Definition nudge_image_pos (self : MainWindow) (dx dy : Z) : MainWindow :=
  match image_item self with
  | None => self
  | Some item =>
      let p := MovableImageItem.pos item in
      let item := MovableImageItem.setPos item
                    (QPointF.mk (QPointF.x p + Py.float dx) (QPointF.y p + Py.float dy)) in
      _clamp_image_pos (set_image_item self (Some item))
  end.

(** A mouse drag: [MovableImageItem.mouseMoveEvent] ends in a [setPos] on the
    item (axis-locked under Shift, Qt's own move otherwise); the scene then
    emits [changed], whose slot clamps. *)
Definition drag_image_to (self : MainWindow) (p : QPointF.t) : MainWindow :=
  match image_item self with
  | None => self
  | Some item =>
      _on_scene_changed (set_image_item self (Some (MovableImageItem.setPos item p)))
  end.

(** ** Rescaling about the frame's centre *)

(** The four statements that [set_image_scale_percent], [reset_image_scale_100]
    and [zoom_image] each repeat before their final clamp:
    [item_local = item.mapFromScene(center); item.setScale(new_s);
     new_center_scene = item.mapToScene(item_local);
     item.setPos(item.pos() + (center - new_center_scene))]. *)
Definition rescale_about_center (self : MainWindow) (item : MovableImageItem.t)
    (new_s : Q) : MovableImageItem.t :=
  let center := frame_center self in
  let item_local := MovableImageItem.mapFromScene item center in
  let item := MovableImageItem.setScale item new_s in
  let new_center_scene := MovableImageItem.mapToScene item item_local in
  MovableImageItem.setPos item
    (QPointF.add (MovableImageItem.pos item) (QPointF.sub center new_center_scene)).

Definition set_image_scale_percent (self : MainWindow) (percent : Q) : MainWindow :=
  match image_item self with
  | None => self
  | Some item =>
      let p := percent in
      let p := Py.max 1.0 (Py.min 5000.0 p) in
      let new_s := p / 100.0 in
      _clamp_image_pos (set_image_item self (Some (rescale_about_center self item new_s)))
  end.

Definition nudge_image_scale_percent (self : MainWindow) (delta_percent : Q) : MainWindow :=
  match image_item self with
  | None => self
  | Some item =>
      let cur := MovableImageItem.scale item * 100.0 in
      set_image_scale_percent self (cur + delta_percent)
  end.

Definition reset_image_scale_100 (self : MainWindow) : MainWindow :=
  match image_item self with
  | None => self
  | Some item =>
      _clamp_image_pos (set_image_item self (Some (rescale_about_center self item 1.0)))
  end.

Definition zoom_base (step : string) : Q :=
  if String.eqb step "ultra" then 1.01
  else if String.eqb step "fine" then 1.03
  else 1.15.

Definition zoom_factor (zoom_in : bool) (step : string) : Q :=
  let base := zoom_base step in
  if zoom_in then base else 1 / base.

(** [new_s] of [zoom_image]. *)
Definition zoom_new_scale (zoom_in : bool) (step : string) (old_s : Q) : Q :=
  Py.max 0.02 (Py.min 50.0 (old_s * zoom_factor zoom_in step)).

(** The threshold [1e-12] below which [zoom_image] changes nothing. *)
Definition zoom_noop_threshold : Q := 1 # 1000000000000.

Definition zoom_image (self : MainWindow) (zoom_in : bool) (step : string) : MainWindow :=
  match image_item self with
  | None => self
  | Some item =>
      let old_s := MovableImageItem.scale item in
      let new_s := zoom_new_scale zoom_in step old_s in
      if Qlt_le_dec (Py.abs (new_s - old_s)) zoom_noop_threshold then self
      else _clamp_image_pos (set_image_item self (Some (rescale_about_center self item new_s)))
  end.

(** ** Loading, clearing, frame size and background *)

(** [open_image_from_path]; [pixmap] is what [QPixmap(path)] decoded. *)
Definition open_image_from_path (self : MainWindow) (path : string)
    (pixmap : QPixmap.t) : MainWindow :=
  if QPixmap.isNull pixmap then self
  else
    let self := mkMainWindow (output_size self) (bg_color self)
                  (Some (MovableImageItem.new pixmap)) (Some path)
                  (_recent_sizes self) (_recent_bg_colors self) in
    _clamp_image_pos (_place_image_initial self).

(** [clear_image], once the user has confirmed. *)
Definition clear_image (self : MainWindow) : MainWindow :=
  match image_item self with
  | None => self
  | Some _ =>
      mkMainWindow (output_size self) (bg_color self) None None
                   (_recent_sizes self) (_recent_bg_colors self)
  end.

Definition set_output_size (self : MainWindow) (w h : Z) : MainWindow :=
  let self := mkMainWindow (OutputSize.mk w h) (bg_color self) (image_item self)
                (_image_path self) (_recent_sizes self) (_recent_bg_colors self) in
  match image_item self with
  | Some _ => _place_image_initial self
  | None => self
  end.

Definition set_bg_color (self : MainWindow) (c : QColor.t) : MainWindow :=
  mkMainWindow (output_size self) c (image_item self) (_image_path self)
               (_recent_sizes self) (_recent_bg_colors self).

(** ** Composite rendering *)

(** The part of the imaging library (Pillow) that the renderer relies on.
    An image is its mode, its size and its pixels, row by row; a pixel is the
    tuple of its channel values. *)
Module PIL.
Inductive mode : Type := RGBA | RGB | OtherMode (name : string).

Definition pixel : Type := list Z.

Record Image : Type := mkImage {
  im_mode : mode;
  width : Z;
  height : Z;
  rows : list (list pixel)
}.

(** [Image.new(mode, size, color)]: a canvas filled with one colour; a
    negative size is refused ([None] is the [ValueError]). *)
Definition new (m : mode) (size : Z * Z) (color : pixel) : option Image :=
  let '(w, h) := size in
  if ((w <? 0) || (h <? 0))%Z then None
  else Some (mkImage m w h (repeat (repeat color (Z.to_nat w)) (Z.to_nat h))).

(** The size check of [Image.resize]: "height and width must be > 0". *)
Definition resize_rejects (size : Z * Z) : bool :=
  ((fst size <=? 0) || (snd size <=? 0))%Z.
End PIL.

(** The size [(new_w, new_h)] that [_render_output_pil] passes to [resize]. *)
Definition render_resize_size (src_width src_height : Z) (s : Q) : Z * Z :=
  let new_w := Py.max_int 1 (Py.round (Py.float src_width * s)) in
  let new_h := Py.max_int 1 (Py.round (Py.float src_height * s)) in
  (new_w, new_h).

Section Render.

(** Decoding and resampling are the library's business: [load] stands for
    [Image.open] followed by [ImageOps.exif_transpose] ([None] when it
    raises), [convert] for [Image.convert], [resample] for the Lanczos
    kernel behind [Image.resize], [paste] for [Image.paste] with a mask. *)
Variable load : string -> option PIL.Image.
Variable convert : PIL.Image -> PIL.mode -> PIL.Image.
Variable resample : PIL.Image -> Z * Z -> PIL.Image.
Variable paste : PIL.Image -> PIL.Image -> Z * Z -> PIL.Image -> PIL.Image.

Definition resize (src : PIL.Image) (size : Z * Z) : option PIL.Image :=
  if PIL.resize_rejects size then None else Some (resample src size).

(** [None] is an exception, which both callers report to the user. *)
Definition _render_output_pil (self : MainWindow) : option PIL.Image :=
  let bg := [QColor.red (bg_color self); QColor.green (bg_color self);
             QColor.blue (bg_color self)] in
  match PIL.new PIL.RGBA (OutputSize.w (output_size self), OutputSize.h (output_size self))
                (bg ++ [255%Z]) with
  | None => None
  | Some canvas =>
      match _image_path self, image_item self with
      | Some path, Some item =>
          if String.eqb path EmptyString then Some canvas
          else
            match load path with
            | None => None
            | Some src =>
                let src := match PIL.im_mode src with
                           | PIL.RGBA => src
                           | _ => convert src PIL.RGBA
                           end in
                let s := MovableImageItem.scale item in
                let x := Py.round (QPointF.x (MovableImageItem.pos item)) in
                let y := Py.round (QPointF.y (MovableImageItem.pos item)) in
                match resize src (render_resize_size (PIL.width src) (PIL.height src) s) with
                | None => None
                | Some resized =>
                    let canvas := paste canvas resized (x, y) resized in
                    Some (convert canvas PIL.RGB)
                end
            end
      | _, _ => Some canvas
      end
  end.

End Render.

(** ** Recent custom sizes and background colours *)

Definition size_eqb (a b : Z * Z) : bool :=
  ((fst a =? fst b) && (snd a =? snd b))%Z.

Definition _remember_custom_size (self : MainWindow) (w h : Z) : MainWindow :=
  let key := (w, h) in
  let sizes := filter (fun s => negb (size_eqb s key)) (_recent_sizes self) in
  let sizes := key :: sizes in
  let sizes := firstn 10 sizes in
  mkMainWindow (output_size self) (bg_color self) (image_item self) (_image_path self)
               sizes (_recent_bg_colors self).

Definition _remember_bg_color (self : MainWindow) (c : QColor.t) : MainWindow :=
  let s := QColor.name_upper c in
  let cols := filter (fun x => negb (String.eqb x s)) (_recent_bg_colors self) in
  let cols := s :: cols in
  let cols := firstn 10 cols in
  mkMainWindow (output_size self) (bg_color self) (image_item self) (_image_path self)
               (_recent_sizes self) cols.

(** [set_custom_size], once both dialogs were accepted. *)
Definition set_custom_size (self : MainWindow) (w h : Z) : MainWindow :=
  _remember_custom_size (set_output_size self w h) w h.

(** [pick_bg_color], once the dialog returned a valid colour. *)
Definition pick_bg_color (self : MainWindow) (c : QColor.t) : MainWindow :=
  _remember_bg_color (set_bg_color self c) c.

Definition _clear_recent_sizes (self : MainWindow) : MainWindow :=
  mkMainWindow (output_size self) (bg_color self) (image_item self) (_image_path self)
               [] (_recent_bg_colors self).

Definition _clear_recent_bg_colors (self : MainWindow) : MainWindow :=
  mkMainWindow (output_size self) (bg_color self) (image_item self) (_image_path self)
               (_recent_sizes self) [].

(** ** Vocabulary of the statements *)

(** [clamp(v, lo, hi)]: [v] brought back into the interval [[lo, hi]]. *)
Definition clamp (v lo hi : Q) : Q :=
  if Qlt_le_dec v lo then lo else if Qlt_le_dec hi v then hi else v.

(** A loaded image in a frame: the frame and the pixmap have positive pixel
    sizes and the scale is positive. *)
Definition loaded (self : MainWindow) (item : MovableImageItem.t) : Prop :=
  image_item self = Some item /\
  (0 < OutputSize.w (output_size self))%Z /\
  (0 < OutputSize.h (output_size self))%Z /\
  (0 < QPixmap.width (MovableImageItem.pixmap item))%Z /\
  (0 < QPixmap.height (MovableImageItem.pixmap item))%Z /\
  0 < MovableImageItem.scale item.

Definition frame_w (self : MainWindow) : Q := Py.float (OutputSize.w (output_size self)).
Definition frame_h (self : MainWindow) : Q := Py.float (OutputSize.h (output_size self)).

(** Scaled size [iw * s], [ih * s] of an item. *)
Definition scaled_w (item : MovableImageItem.t) : Q :=
  Py.float (QPixmap.width (MovableImageItem.pixmap item)) * MovableImageItem.scale item.
Definition scaled_h (item : MovableImageItem.t) : Q :=
  Py.float (QPixmap.height (MovableImageItem.pixmap item)) * MovableImageItem.scale item.

(** Length of the part of the interval [[x, x + size]] inside [[0, frame]]. *)
Definition overlap (x size frame : Q) : Q := Qmin (x + size) frame - Qmax x 0.

(** The image overlaps the frame by at least a quarter of the frame, per axis. *)
Definition quarter_overlap (self : MainWindow) : Prop :=
  forall item, image_item self = Some item ->
    0.25 * frame_w self
      <= overlap (QPointF.x (MovableImageItem.pos item)) (scaled_w item) (frame_w self) /\
    0.25 * frame_h self
      <= overlap (QPointF.y (MovableImageItem.pos item)) (scaled_h item) (frame_h self).

(** The same with the image's own scaled size as a second bound: an image
    narrower than a quarter of the frame can only overlap by its width. *)
Definition margin_overlap (self : MainWindow) : Prop :=
  forall item, image_item self = Some item ->
    Qmin (0.25 * frame_w self) (scaled_w item)
      <= overlap (QPointF.x (MovableImageItem.pos item)) (scaled_w item) (frame_w self) /\
    Qmin (0.25 * frame_h self) (scaled_h item)
      <= overlap (QPointF.y (MovableImageItem.pos item)) (scaled_h item) (frame_h self).

(** The commands that change the position or the scale of the image. *)
Inductive Align : Type :=
  Center | CenterVertical | CenterHorizontal | Top | Bottom | Left | Right.

Inductive Mutation : Type :=
| Drag (p : QPointF.t)
| Nudge (dx dy : Z)
| WheelZoom (zoom_in : bool) (step : string)
| ScalePercent (percent : Q)
| NudgeScalePercent (delta_percent : Q)
| FitWidth
| FitHeight
| FitContain
| ResetInitial
| ResetScale100
| AlignTo (a : Align).

Definition align (a : Align) : MainWindow -> MainWindow :=
  match a with
  | Center => align_center
  | CenterVertical => align_center_vertical
  | CenterHorizontal => align_center_horizontal
  | Top => align_top
  | Bottom => align_bottom
  | Left => align_left
  | Right => align_right
  end.

Definition mutate (self : MainWindow) (m : Mutation) : MainWindow :=
  match m with
  | Drag p => drag_image_to self p
  | Nudge dx dy => nudge_image_pos self dx dy
  | WheelZoom zoom_in step => zoom_image self zoom_in step
  | ScalePercent percent => set_image_scale_percent self percent
  | NudgeScalePercent d => nudge_image_scale_percent self d
  | FitWidth => fit_image_to_width self
  | FitHeight => fit_image_to_height self
  | FitContain => fit_image_contain self
  | ResetInitial => reset_image_to_initial self
  | ResetScale100 => reset_image_scale_100 self
  | AlignTo a => align a self
  end.

(** The state of the clamp scenario: a 100 x 100 image at scale 1 placed at
    (2000, 0) in the 1920 x 1080 frame. *)
Definition scenario_clamp : MainWindow :=
  mkMainWindow (OutputSize.mk 1920 1080) (QColor.mk 255 255 255)
    (Some (MovableImageItem.mk (QPixmap.mk 100 100) 1 (QPointF.mk 2000 0)))
    (Some "a.png"%string) [] [].

(** ** Scenarios, further vocabulary and tactics *)

(** Scenarios are run with the virtual machine: [run_image] evaluates the
    image item of a concrete state and offers it as the witness. *)
Ltac run_image :=
  lazymatch goal with
  | |- exists it, image_item ?st = Some it /\ _ =>
      let v := eval vm_compute in (image_item st) in
      lazymatch v with
      | Some ?i => exists i; split; [vm_compute; reflexivity |]
      end
  end.

Ltac image_of st H :=
  let v := eval vm_compute in (image_item st) in
  assert (H : image_item st = v) by (vm_compute; reflexivity).

(** [self'] is the clamp of [self] with a new scale and position for the
    image: same frame, same pixmap, positive scale. *)
Definition ends_in_clamp (self self' : MainWindow) (item : MovableImageItem.t) : Prop :=
  exists item',
    self' = _clamp_image_pos (set_image_item self (Some item')) /\
    MovableImageItem.pixmap item' = MovableImageItem.pixmap item /\
    0 < MovableImageItem.scale item'.

(** The state of the fit scenario: the 800 x 600 image loaded into the
    1920 x 1080 frame (scale 1.8, position (240, 0)) and nudged 100 pixels
    down, to (240, 100). *)
Definition scenario_fit : MainWindow :=
  nudge_image_pos
    (open_image_from_path (MainWindow_init [] []) "a.png" (QPixmap.mk 800 600))
    0 100.

(** Fit-width as the specification describes it: the vertical position is
    the old one, clamped for the new scale. *)
Definition fit_width_keeps_y (self : MainWindow) : Prop :=
  forall item item',
    image_item self = Some item ->
    image_item (fit_image_to_width self) = Some item' ->
    QPointF.y (MovableImageItem.pos item')
    == clamp (QPointF.y (MovableImageItem.pos item))
             (- scaled_h item' + frame_h self * 0.25)
             (frame_h self - frame_h self * 0.25).

(** The load scenario: the 800 x 600 image opened in the 1920 x 1080 frame of
    a fresh window. *)
Definition scenario_load : MainWindow :=
  open_image_from_path (MainWindow_init [] []) "a.png" (QPixmap.mk 800 600).

(** The three rescales about the frame's centre. *)
Inductive Rescale : Type :=
| ByWheel (zoom_in : bool) (step : string)
| ByPercent (percent : Q)
| ByReset100.

Definition rescale (self : MainWindow) (r : Rescale) : MainWindow :=
  match r with
  | ByWheel zoom_in step => zoom_image self zoom_in step
  | ByPercent percent => set_image_scale_percent self percent
  | ByReset100 => reset_image_scale_100 self
  end.

(** The scale each of them asks for, from the current scale. *)
Definition rescale_target (r : Rescale) (old_s : Q) : Q :=
  match r with
  | ByWheel zoom_in step => zoom_new_scale zoom_in step old_s
  | ByPercent percent => Py.max 1.0 (Py.min 5000.0 percent) / 100.0
  | ByReset100 => 1.0
  end.

(** The image-local point that lies under the frame's centre. *)
Definition centre_local (self : MainWindow) (item : MovableImageItem.t) : QPointF.t :=
  MovableImageItem.mapFromScene item (frame_center self).

(** Two points differ by less than [eps] in each coordinate. *)
Definition within (eps : Q) (p q : QPointF.t) : Prop :=
  Qabs (QPointF.x p - QPointF.x q) < eps /\ Qabs (QPointF.y p - QPointF.y q) < eps.

(** Two states hold an image at the same position (or both hold none). *)
Definition same_image_pos (a b : MainWindow) : Prop :=
  match image_item a, image_item b with
  | Some i, Some j => QPointF.eq (MovableImageItem.pos i) (MovableImageItem.pos j)
  | None, None => True
  | _, _ => False
  end.

(** The wheel zoom leaves the scale inside [0.02, 50.0]. *)
Definition wheel_zoom_scale_in_range (self : MainWindow) (zoom_in : bool)
    (step : string) : Prop :=
  forall item', image_item (zoom_image self zoom_in step) = Some item' ->
    0.02 <= MovableImageItem.scale item' <= 50.0.

(** The state of the zoom scenario: the 800 x 600 image loaded into the
    1920 x 1080 frame, then the percentage 1.99999999999 entered. *)
Definition scenario_zoom : MainWindow :=
  set_image_scale_percent scenario_load 1.99999999999.

(** The three statements of [_remember_custom_size] and [_remember_bg_color],
    on the list alone: drop the value, put it first, keep ten. *)
Definition remember_front {A : Type} (eqb : A -> A -> bool) (key : A) (l : list A) : list A :=
  firstn 10 (key :: filter (fun x => negb (eqb x key)) l).

(** The distinct values of a list, each at its first occurrence. *)
Fixpoint distinct {A : Type} (eqb : A -> A -> bool) (l : list A) : list A :=
  match l with
  | [] => []
  | x :: r => x :: filter (fun y => negb (eqb y x)) (distinct eqb r)
  end.

(** What one remember operation promises, from the list [l] to the list [l']:
    the value is first and nowhere else, at most ten entries are kept, a value
    that was present has moved to the front, one that was not is inserted
    there, and no duplicate appears. *)
Definition remembered {A : Type} (eq_dec : forall x y : A, {x = y} + {x <> y})
    (key : A) (l l' : list A) : Prop :=
  hd_error l' = Some key /\
  ~ In key (tl l') /\
  (length l' <= 10)%nat /\
  (In key l -> l' = firstn 10 (key :: remove eq_dec key l)) /\
  (~ In key l -> l' = firstn 10 (key :: l)) /\
  (NoDup l -> NoDup l').

Definition size_dec (a b : Z * Z) : {a = b} + {a <> b}.
Proof. decide equality; apply Z.eq_dec. Defined.

(** A session's remember operations, oldest first. *)
Definition remember_sizes (self : MainWindow) (history : list (Z * Z)) : MainWindow :=
  fold_left (fun s key => _remember_custom_size s (fst key) (snd key)) history self.

Definition remember_colors (self : MainWindow) (history : list QColor.t) : MainWindow :=
  fold_left _remember_bg_color history self.

(** ** The same formulas in binary64

    The formulas of the scenarios once more, over IEEE 754 binary64 numbers
    (Python's [float] bit for bit), to replay the scenarios with rounding. *)

#[local] Set Warnings "-inexact-float".

Module Binary64.

Definition min (a b : float) : float := if PrimFloat.ltb b a then b else a.
Definition max (a b : float) : float := if PrimFloat.ltb a b then b else a.

(** One axis of [_clamp_image_pos]. *)
Definition clamp_axis (frame size v : float) : float :=
  let min_v := (- size + frame * 0.25)%float in
  let max_v := (frame - frame * 0.25)%float in
  min max_v (max min_v v).

(** [s] of [_place_image_initial] and one coordinate of its position. *)
Definition initial_scale (fw fh iw ih : float) : float :=
  min (fw / iw)%float (fh / ih)%float.

Definition centred (frame size : float) : float := ((frame - size) / 2)%float.

(** [new_s] of [set_image_scale_percent] and of [zoom_image], and the test
    under which [zoom_image] returns at once. *)
Definition percent_scale (percent : float) : float :=
  (max 1.0 (min 5000.0 percent) / 100.0)%float.

Definition zoom_new_scale (factor old_s : float) : float :=
  max 0.02%float (min 50.0%float (old_s * factor)%float).

Definition zoom_returns_early (new_s old_s : float) : bool :=
  PrimFloat.ltb (PrimFloat.abs (new_s - old_s)%float) 1e-12%float.

End Binary64.

(** ** Further code of the main window, the view and the preview dialog *)


(** The arrow keys that [ImageView.keyPressEvent] handles itself; every other
    key goes to the base class. *)
Inductive Key : Type := Key_Left | Key_Right | Key_Up | Key_Down | Key_Other.

(** [ImageView.keyPressEvent] on the main window: one pixel per press, ten
    with Shift. *)
Definition keyPressEvent (mw : MainWindow) (key : Key) (shift : bool) : MainWindow :=
  match key with
  | Key_Other => mw
  | _ =>
      let step := if shift then 10%Z else 1%Z in
      let dx := match key with
                | Key_Left => (- step)%Z
                | Key_Right => step
                | _ => 0%Z
                end in
      let dy := match key with
                | Key_Left | Key_Right => 0%Z
                | Key_Up => (- step)%Z
                | Key_Down => step
                | Key_Other => 0%Z
                end in
      nudge_image_pos mw dx dy
  end.


(** The view's zoom, as the main window keeps it: [view_zoom],
    [max_view_zoom] and the view's [_scroll_locked] flag. *)
Record ViewZoom : Type := mkViewZoom {
  view_zoom : Q;
  max_view_zoom : option Q;
  _scroll_locked : bool
}.

(** [fit_canvas_to_window]; [fitted] is the factor [fitInView] arrived at. *)
Definition fit_canvas_to_window (v : ViewZoom) (fitted : Q) : ViewZoom :=
  mkViewZoom fitted (Some fitted) true.

Definition _update_scroll_lock (v : ViewZoom) : ViewZoom :=
  match max_view_zoom v with
  | None => mkViewZoom (view_zoom v) (max_view_zoom v) false
  | Some m =>
      let locked := if Qlt_le_dec (Py.abs (view_zoom v - m)) 1.0 then true else false in
      mkViewZoom (view_zoom v) (max_view_zoom v) locked
  end.

Definition set_view_zoom (v : ViewZoom) (z : Q) : ViewZoom :=
  let min_z := 0.1 in
  let max_z := match max_view_zoom v with
               | Some m => m
               | None => 4.0
               end in
  let z := Py.max min_z (Py.min max_z z) in
  _update_scroll_lock (mkViewZoom z (max_view_zoom v) (_scroll_locked v)).

Definition nudge_view_zoom (v : ViewZoom) (zoom_in : bool) : ViewZoom :=
  let factor := if zoom_in then 1.10 else 1 / 1.10 in
  set_view_zoom v (view_zoom v * factor).

(** A user's view-zoom requests after a fit. *)
Inductive ViewRequest : Type :=
| SetViewZoom (z : Q)
| NudgeViewZoom (zoom_in : bool).

Definition view_request (v : ViewZoom) (r : ViewRequest) : ViewZoom :=
  match r with
  | SetViewZoom z => set_view_zoom v z
  | NudgeViewZoom zoom_in => nudge_view_zoom v zoom_in
  end.


Section Preview.

(** [QPixmap.scaled(w, h, Qt.KeepAspectRatio, Qt.SmoothTransformation)] is
    Qt's business. *)
Variable scaled : QPixmap.t -> Z -> Z -> QPixmap.t.





End Preview.

(** The drag bookkeeping of [MovableImageItem]. *)
Inductive Axis : Type := AxisX | AxisY.

Record DragItem : Type := mkDragItem {
  drag_item : MovableImageItem.t;
  _press_scene_pos : option QPointF.t;
  _press_item_pos : option QPointF.t;
  _lock_axis : option Axis
}.

(** [mousePressEvent]; the base class does not move the item. *)
Definition mousePressEvent (d : DragItem) (left_button : bool)
    (scene_pos : QPointF.t) : DragItem :=
  if left_button then
    mkDragItem (drag_item d) (Some scene_pos)
               (Some (MovableImageItem.pos (drag_item d))) None
  else d.

Section Drag.

(** What [QGraphicsItem.mouseMoveEvent] does with a movable item. *)
Variable super_mouseMoveEvent : MovableImageItem.t -> QPointF.t -> MovableImageItem.t.

Definition mouseMoveEvent (d : DragItem) (left_button shift : bool)
    (scene_pos : QPointF.t) : DragItem :=
  let super :=
    mkDragItem (super_mouseMoveEvent (drag_item d) scene_pos)
               (_press_scene_pos d) (_press_item_pos d) (_lock_axis d) in
  match _press_scene_pos d, _press_item_pos d with
  | Some press_scene, Some press_item =>
      if left_button && shift then
        let delta := QPointF.sub scene_pos press_scene in
        let axis := match _lock_axis d with
                    | Some a => a
                    | None =>
                        if Qle_bool (Py.abs (QPointF.y delta)) (Py.abs (QPointF.x delta))
                        then AxisX else AxisY
                    end in
        let delta := match axis with
                     | AxisX => QPointF.mk (QPointF.x delta) 0.0
                     | AxisY => QPointF.mk 0.0 (QPointF.y delta)
                     end in
        mkDragItem (MovableImageItem.setPos (drag_item d) (QPointF.add press_item delta))
                   (_press_scene_pos d) (_press_item_pos d) (Some axis)
      else super
  | _, _ => super
  end.

End Drag.

(** [mouseReleaseEvent]. *)
Definition mouseReleaseEvent (d : DragItem) : DragItem :=
  mkDragItem (drag_item d) None None None.

(** ** Vocabulary of the further properties *)

(** The state holds an image whose position satisfies [P]. *)
Definition placed_at (self : MainWindow) (P : Q -> Q -> Prop) : Prop :=
  exists item,
    image_item self = Some item /\
    P (QPointF.x (MovableImageItem.pos item)) (QPointF.y (MovableImageItem.pos item)).

(** The position of the image is inside the bounds of [_clamp_image_pos]. *)
Definition inside_clamp_bounds (self : MainWindow) (item : MovableImageItem.t) : Prop :=
  - scaled_w item + frame_w self * 0.25 <= QPointF.x (MovableImageItem.pos item)
    <= frame_w self - frame_w self * 0.25 /\
  - scaled_h item + frame_h self * 0.25 <= QPointF.y (MovableImageItem.pos item)
    <= frame_h self - frame_h self * 0.25.

(** Everything but the image item is the same in two states. *)
Definition same_surroundings (a b : MainWindow) : Prop :=
  output_size a = output_size b /\ bg_color a = bg_color b /\
  _image_path a = _image_path b /\
  _recent_sizes a = _recent_sizes b /\ _recent_bg_colors a = _recent_bg_colors b.

(** The commands that only move the image. *)
Definition moves_only (m : Mutation) : bool :=
  match m with
  | Drag _ | Nudge _ _ | AlignTo _ => true
  | _ => false
  end.

(** The key that undoes an arrow key. *)
Definition opposite_key (key : Key) : Key :=
  match key with
  | Key_Left => Key_Right
  | Key_Right => Key_Left
  | Key_Up => Key_Down
  | Key_Down => Key_Up
  | Key_Other => Key_Other
  end.

(** The state with the frame replaced, as the first statement of
    [set_output_size] leaves it. *)
Definition with_output_size (self : MainWindow) (w h : Z) : MainWindow :=
  mkMainWindow (OutputSize.mk w h) (bg_color self) (image_item self)
               (_image_path self) (_recent_sizes self) (_recent_bg_colors self).

(** The displacement an arrow key asks for: one pixel, ten with Shift. *)
Definition key_delta (key : Key) (shift : bool) : Z * Z :=
  let step := if shift then 10%Z else 1%Z in
  match key with
  | Key_Left => ((- step)%Z, 0%Z)
  | Key_Right => (step, 0%Z)
  | Key_Up => (0%Z, (- step)%Z)
  | Key_Down => (0%Z, step)
  | Key_Other => (0%Z, 0%Z)
  end.

(** Everything but the image item and its path is the same in two states. *)
Definition same_surroundings_but_path (a b : MainWindow) : Prop :=
  output_size a = output_size b /\ bg_color a = bg_color b /\
  _recent_sizes a = _recent_sizes b /\ _recent_bg_colors a = _recent_bg_colors b.

(** What [_render_output_pil] reads of the image item: its scale and its
    position rounded to whole pixels. *)
Definition same_export_placement (a b : option MovableImageItem.t) : Prop :=
  match a, b with
  | None, None => True
  | Some ia, Some ib =>
      MovableImageItem.scale ia == MovableImageItem.scale ib /\
      Py.round (QPointF.x (MovableImageItem.pos ia))
      = Py.round (QPointF.x (MovableImageItem.pos ib)) /\
      Py.round (QPointF.y (MovableImageItem.pos ia))
      = Py.round (QPointF.y (MovableImageItem.pos ib))
  | _, _ => False
  end.

(** The state with the background colour and the recent lists replaced: what
    [set_bg_color], [_remember_custom_size], [_remember_bg_color] and the two
    clear commands write. *)
Definition with_settings (self : MainWindow) (bg : QColor.t)
    (sizes : list (Z * Z)) (cols : list string) : MainWindow :=
  mkMainWindow (output_size self) bg (image_item self) (_image_path self) sizes cols.


(** The view after a fit with factor [fitted]: the zoom is between 0.1 and the
    fitted factor, which stays the upper limit, and the scroll lock is on
    exactly when the zoom is less than 1 below the fitted factor. *)
Definition view_within_fit (fitted : Q) (v : ViewZoom) : Prop :=
  max_view_zoom v = Some fitted /\
  0.1 <= view_zoom v <= fitted /\
  (_scroll_locked v = true <-> fitted - view_zoom v < 1).

(** The part of a displacement that an axis lock lets through. *)
Definition along (axis : Axis) (delta : QPointF.t) : QPointF.t :=
  match axis with
  | AxisX => QPointF.mk (QPointF.x delta) 0.0
  | AxisY => QPointF.mk 0.0 (QPointF.y delta)
  end.

(** The axis that the first Shift-move of a drag locks: the horizontal one
    unless the vertical displacement is the larger. *)
Definition first_axis (press first : QPointF.t) : Axis :=
  if Qle_bool (Py.abs (QPointF.y (QPointF.sub first press)))
              (Py.abs (QPointF.x (QPointF.sub first press)))
  then AxisX else AxisY.

(** A drag in progress: pressed at [press] with the item at [origin], locked
    to [axis], the pointer last seen at [pointer]. *)
Definition dragging (press origin : QPointF.t) (axis : Axis) (it : MovableImageItem.t)
    (d : DragItem) (pointer : QPointF.t) : Prop :=
  _press_scene_pos d = Some press /\ _press_item_pos d = Some origin /\
  _lock_axis d = Some axis /\
  MovableImageItem.pixmap (drag_item d) = MovableImageItem.pixmap it /\
  MovableImageItem.scale (drag_item d) = MovableImageItem.scale it /\
  MovableImageItem.pos (drag_item d)
  = QPointF.add origin (along axis (QPointF.sub pointer press)).

(** A mouse move with the left button and Shift held. *)
Definition shift_move
    (super_mouseMoveEvent : MovableImageItem.t -> QPointF.t -> MovableImageItem.t)
    (d : DragItem) (p : QPointF.t) : DragItem :=
  mouseMoveEvent super_mouseMoveEvent d true true p.

(** ** Scene rectangle and guide lines *)

(** [QRectF(r.left() - margin, r.top() - margin, r.width() + margin * 2,
    r.height() + margin * 2)] of [_apply_scene_rect]. *)
Definition _apply_scene_rect (self : MainWindow) : QRectF.t :=
  let r := OutputSize.rect (output_size self) in
  let margin := 300 in
  QRectF.mk (QRectF.x r - margin) (QRectF.y r - margin)
            (QRectF.width r + margin * 2) (QRectF.height r + margin * 2).

(** A [QGraphicsLineItem]'s line, as [setLine(x1, y1, x2, y2)] sets it. *)
Record QLineF : Type := mkQLineF { x1 : Q; y1 : Q; x2 : Q; y2 : Q }.

Record Guides : Type := mkGuides {
  _guide_center_v : QLineF;
  _guide_center_h : QLineF;
  _guide_taskbar : QLineF
}.

Definition _update_guides_geometry (self : MainWindow) : Guides :=
  let w := OutputSize.w (output_size self) in
  let h := OutputSize.h (output_size self) in
  let cx := Py.float w / 2.0 in
  let cy := Py.float h / 2.0 in
  let bleed := 40.0 in
  let y := Py.float h - 48.0 in
  mkGuides (mkQLineF cx (- bleed) cx (Py.float h + bleed))
           (mkQLineF (- bleed) cy (Py.float w + bleed) cy)
           (mkQLineF 0.0 y (Py.float w) y).

(** A point lies in a rectangle (borders included). *)
Definition rect_contains (r : QRectF.t) (px py : Q) : Prop :=
  QRectF.x r <= px <= QRectF.x r + QRectF.width r /\
  QRectF.y r <= py <= QRectF.y r + QRectF.height r.

(** The centre of the image's scaled rectangle in the scene. *)
Definition image_centre (item : MovableImageItem.t) : QPointF.t :=
  QPointF.mk (QPointF.x (MovableImageItem.pos item) + scaled_w item / 2)
             (QPointF.y (MovableImageItem.pos item) + scaled_h item / 2).

(** ** The view's wheel handler *)






(** ** Tactics of the further properties *)

Ltac align_cases :=
  unfold Py.min, Py.max; repeat destruct Qlt_le_dec;
  repeat split; intros; lra.

Ltac unfold_commands :=
  unfold drag_image_to, nudge_image_pos, zoom_image, set_image_scale_percent,
    nudge_image_scale_percent, fit_image_to_width, fit_image_to_height,
    fit_image_contain, reset_image_to_initial, reset_image_scale_100,
    align_center, align_center_vertical, align_center_horizontal,
    align_top, align_bottom, align_left, align_right, set_image_scale_percent,
    _apply_image_scale_and_center, _place_image_initial, _on_scene_changed,
    _clamp_image_pos.

Ltac case_guards :=
  repeat match goal with
    | |- context [Qlt_le_dec ?a ?b] => destruct (Qlt_le_dec a b)
    | |- context [QPixmap.isNull ?a] => destruct (QPixmap.isNull a)
    | |- context [Py.truediv ?a ?b] => destruct (Py.truediv a b)
    end.

(** * Lemmas and theorems *)

(** ** Arithmetic of [min], [max] and the clamp *)

Lemma float_pos (n : Z) : (0 < n)%Z -> 0 < Py.float n.
Proof.
  intro H. unfold Py.float. change 0 with (inject_Z 0). now rewrite <- Zlt_Qlt.
Qed.

Lemma clamp_code_bounds (v lo hi : Q) :
  lo <= hi -> lo <= Py.min hi (Py.max lo v) <= hi.
Proof.
  intro H. unfold Py.min, Py.max.
  repeat destruct Qlt_le_dec; lra.
Qed.

Lemma clamp_code_is_clamp (v lo hi : Q) :
  lo <= hi -> Py.min hi (Py.max lo v) == clamp v lo hi.
Proof.
  intro H. unfold clamp, Py.min, Py.max.
  repeat destruct Qlt_le_dec; lra.
Qed.

Lemma clamp_code_idempotent (v lo hi : Q) :
  Py.min hi (Py.max lo (Py.min hi (Py.max lo v))) = Py.min hi (Py.max lo v).
Proof.
  unfold Py.min, Py.max.
  repeat (destruct Qlt_le_dec; try reflexivity; try lra).
Qed.

Lemma clamp_code_fixed (v lo hi : Q) :
  lo <= v <= hi -> Py.min hi (Py.max lo v) == v.
Proof.
  intro H. unfold Py.min, Py.max. repeat destruct Qlt_le_dec; lra.
Qed.

Lemma scaled_w_pos (self : MainWindow) (item : MovableImageItem.t) :
  loaded self item -> 0 < scaled_w item.
Proof.
  intros (_ & _ & _ & Hw & _ & Hs). unfold scaled_w.
  apply Qmult_lt_0_compat; [now apply float_pos | exact Hs].
Qed.

Lemma scaled_h_pos (self : MainWindow) (item : MovableImageItem.t) :
  loaded self item -> 0 < scaled_h item.
Proof.
  intros (_ & _ & _ & _ & Hh & Hs). unfold scaled_h.
  apply Qmult_lt_0_compat; [now apply float_pos | exact Hs].
Qed.

Lemma frame_w_pos (self : MainWindow) (item : MovableImageItem.t) :
  loaded self item -> 0 < frame_w self.
Proof. intros (_ & Hw & _). now apply float_pos. Qed.

Lemma frame_h_pos (self : MainWindow) (item : MovableImageItem.t) :
  loaded self item -> 0 < frame_h self.
Proof. intros (_ & _ & Hh & _). now apply float_pos. Qed.

(** What [_clamp_image_pos] computes, in the vocabulary of the theorems. *)
Lemma clamp_image_pos_unfold (self : MainWindow) (item : MovableImageItem.t) :
  image_item self = Some item ->
  _clamp_image_pos self =
  set_image_item self (Some (MovableImageItem.setPos item
    (QPointF.mk
       (Py.min (frame_w self - frame_w self * 0.25)
               (Py.max (- scaled_w item + frame_w self * 0.25)
                       (QPointF.x (MovableImageItem.pos item))))
       (Py.min (frame_h self - frame_h self * 0.25)
               (Py.max (- scaled_h item + frame_h self * 0.25)
                       (QPointF.y (MovableImageItem.pos item))))))).
Proof. intro H. unfold _clamp_image_pos. rewrite H. reflexivity. Qed.

(** ** The clamp rule *)

(** C1.  For a loaded image in a frame, [_clamp_image_pos] replaces the
    position (x, y) by
    (clamp(x, -(iw*s) + fw*0.25, fw - fw*0.25),
     clamp(y, -(ih*s) + fh*0.25, fh - fh*0.25))
    and changes nothing else; in the scenario (position (2000, 0), scaled size
    100 x 100, frame 1920 x 1080) the clamped x is 1440. *)
Theorem clamp_image_pos_formula :
  (forall self item, loaded self item ->
     exists p,
       _clamp_image_pos self
         = set_image_item self (Some (MovableImageItem.setPos item p)) /\
       QPointF.x p == clamp (QPointF.x (MovableImageItem.pos item))
                            (- scaled_w item + frame_w self * 0.25)
                            (frame_w self - frame_w self * 0.25) /\
       QPointF.y p == clamp (QPointF.y (MovableImageItem.pos item))
                            (- scaled_h item + frame_h self * 0.25)
                            (frame_h self - frame_h self * 0.25)) /\
  (exists item',
     image_item (_clamp_image_pos scenario_clamp) = Some item' /\
     QPointF.x (MovableImageItem.pos item') == 1440).
Proof.
  split.
  - intros self item L.
    pose proof (scaled_w_pos _ _ L). pose proof (scaled_h_pos _ _ L).
    pose proof (frame_w_pos _ _ L). pose proof (frame_h_pos _ _ L).
    destruct L as (Hi & _).
    eexists. split; [apply (clamp_image_pos_unfold _ _ Hi) |].
    cbn [QPointF.x QPointF.y].
    split; apply clamp_code_is_clamp; lra.
  - run_image. vm_compute. reflexivity.
Qed.

Lemma clamp_image_pos_formula_witness :
  exists p,
    _clamp_image_pos scenario_clamp
      = set_image_item scenario_clamp
          (Some (MovableImageItem.setPos
                   (MovableImageItem.mk (QPixmap.mk 100 100) 1 (QPointF.mk 2000 0)) p)) /\
    QPointF.x p == clamp 2000 (- (Py.float 100 * 1) + Py.float 1920 * 0.25)
                         (Py.float 1920 - Py.float 1920 * 0.25) /\
    QPointF.y p == clamp 0 (- (Py.float 100 * 1) + Py.float 1080 * 0.25)
                         (Py.float 1080 - Py.float 1080 * 0.25).
Proof.
  apply (proj1 clamp_image_pos_formula scenario_clamp
           (MovableImageItem.mk (QPixmap.mk 100 100) 1 (QPointF.mk 2000 0))).
  unfold loaded; cbn. repeat split; reflexivity.
Defined.

(** The second clamp finds both coordinates inside their bounds. *)
Lemma clamp_twice (self : MainWindow) :
  _clamp_image_pos (_clamp_image_pos self) = _clamp_image_pos self.
Proof.
  destruct (image_item self) as [item |] eqn:Hi.
  - rewrite (clamp_image_pos_unfold self item Hi).
    erewrite clamp_image_pos_unfold by reflexivity.
    unfold set_image_item, MovableImageItem.setPos, scaled_w, scaled_h, frame_w, frame_h.
    cbn. rewrite !clamp_code_idempotent. reflexivity.
  - unfold _clamp_image_pos. rewrite Hi. cbn. now rewrite Hi.
Qed.

(** C9.  Clamping twice is clamping once: the second application finds the
    position already inside the bounds and returns the same state, whatever
    the frame, the image and the starting position are.  The same holds for
    the slot of [scene.changed], which the clamp's own [setPos] triggers
    again. *)
Theorem clamp_image_pos_idempotent :
  (forall self, _clamp_image_pos (_clamp_image_pos self) = _clamp_image_pos self) /\
  (forall self, _on_scene_changed (_on_scene_changed self) = _on_scene_changed self).
Proof.
  split; [exact clamp_twice |].
  intro self. unfold _on_scene_changed.
  destruct (image_item self) as [item |] eqn:Hi.
  - rewrite (clamp_image_pos_unfold self item Hi) at 1.
    cbn [image_item set_image_item]. apply clamp_twice.
  - now rewrite Hi.
Qed.

(** ** Overlap with the frame *)

Lemma overlap_lower_bound (x size frame : Q) :
  0 < size -> 0 < frame ->
  - size + frame * 0.25 <= x <= frame - frame * 0.25 ->
  Qmin (0.25 * frame) size <= overlap x size frame.
Proof.
  intros Hs Hf Hx. unfold overlap.
  destruct (Q.min_spec (0.25 * frame) size) as [[? E1] | [? E1]];
    destruct (Q.min_spec (x + size) frame) as [[? E2] | [? E2]];
    destruct (Q.max_spec x 0) as [[? E3] | [? E3]];
    rewrite E1, E2, E3; lra.
Qed.

Lemma loaded_set_item (self : MainWindow) (item item' : MovableImageItem.t) :
  loaded self item ->
  MovableImageItem.pixmap item' = MovableImageItem.pixmap item ->
  0 < MovableImageItem.scale item' ->
  loaded (set_image_item self (Some item')) item'.
Proof.
  intros (_ & Hw & Hh & Hpw & Hph & _) Hpm Hs.
  unfold loaded. rewrite Hpm. cbn. repeat split; assumption.
Qed.

Lemma clamp_output_size (self : MainWindow) :
  output_size (_clamp_image_pos self) = output_size self.
Proof. unfold _clamp_image_pos. now destruct (image_item self). Qed.

Lemma clamp_margin_overlap (self : MainWindow) (item : MovableImageItem.t) :
  loaded self item -> margin_overlap (_clamp_image_pos self).
Proof.
  intros L item' Hi'.
  pose proof (scaled_w_pos _ _ L). pose proof (scaled_h_pos _ _ L).
  pose proof (frame_w_pos _ _ L). pose proof (frame_h_pos _ _ L).
  destruct L as (Hi & _).
  unfold frame_w, frame_h. rewrite clamp_output_size.
  fold (frame_w self) (frame_h self).
  rewrite (clamp_image_pos_unfold _ _ Hi) in Hi'. cbn in Hi'.
  injection Hi' as <-.
  split; apply overlap_lower_bound; try assumption;
    apply clamp_code_bounds; lra.
Qed.

Lemma clamp_loaded (self : MainWindow) (item : MovableImageItem.t) :
  loaded self item ->
  exists item', loaded (_clamp_image_pos self) item' /\
    MovableImageItem.pixmap item' = MovableImageItem.pixmap item /\
    MovableImageItem.scale item' = MovableImageItem.scale item.
Proof.
  intros L. pose proof L as (Hi & Hw & Hh & Hpw & Hph & Hs).
  rewrite (clamp_image_pos_unfold _ _ Hi).
  eexists. split; [| split].
  - unfold loaded. cbn. split; [reflexivity |]. repeat split; assumption.
  - reflexivity.
  - reflexivity.
Qed.

(** ** Every command ends in the clamp *)

Lemma ends_in_clamp_sound (self self' : MainWindow) (item : MovableImageItem.t) :
  loaded self item -> ends_in_clamp self self' item ->
  margin_overlap self' /\ exists item', loaded self' item'.
Proof.
  intros L (item' & -> & Hpm & Hs).
  pose proof (loaded_set_item _ _ _ L Hpm Hs) as L'.
  split; [exact (clamp_margin_overlap _ _ L') |].
  destruct (clamp_loaded _ _ L') as (item'' & L'' & _). now exists item''.
Qed.

Lemma truediv_pos (a b : Z) :
  (0 < a)%Z -> (0 < b)%Z ->
  exists q, Py.truediv a b = Some q /\ q = inject_Z a / inject_Z b /\ 0 < q.
Proof.
  intros Ha Hb. unfold Py.truediv.
  destruct (b =? 0)%Z eqn:E; [apply Z.eqb_eq in E; lia |].
  eexists. split; [reflexivity | split; [reflexivity |]].
  apply Qlt_shift_div_l; [now apply float_pos | rewrite Qmult_0_l; now apply float_pos].
Qed.

Lemma isNull_false (pm : QPixmap.t) :
  (0 < QPixmap.width pm)%Z -> (0 < QPixmap.height pm)%Z -> QPixmap.isNull pm = false.
Proof.
  intros Hw Hh. unfold QPixmap.isNull.
  apply orb_false_iff. split; apply Z.leb_gt; assumption.
Qed.

Lemma Py_min_pos (a b : Q) : 0 < a -> 0 < b -> 0 < Py.min a b.
Proof. intros. unfold Py.min. now destruct Qlt_le_dec. Qed.

Lemma zoom_new_scale_bounds (zoom_in : bool) (step : string) (old_s : Q) :
  0.02 <= zoom_new_scale zoom_in step old_s <= 50.0.
Proof.
  unfold zoom_new_scale, Py.max, Py.min. repeat destruct Qlt_le_dec; lra.
Qed.

Lemma percent_clamp_bounds (percent : Q) :
  1.0 <= Py.max 1.0 (Py.min 5000.0 percent) <= 5000.0.
Proof. unfold Py.max, Py.min. repeat destruct Qlt_le_dec; lra. Qed.

Lemma div_100 (p : Q) : p / 100.0 == p * (1 # 100).
Proof. field. Qed.

Lemma percent_scale_pos (percent : Q) :
  0 < Py.max 1.0 (Py.min 5000.0 percent) / 100.0.
Proof.
  rewrite div_100. pose proof (percent_clamp_bounds percent). lra.
Qed.

Lemma apply_image_scale_and_center_shape (self : MainWindow)
    (item : MovableImageItem.t) (s : Q) :
  loaded self item -> 0 < s ->
  ends_in_clamp self (_apply_image_scale_and_center self s) item.
Proof.
  intros (Hi & _) Hs. unfold _apply_image_scale_and_center. rewrite Hi. cbv zeta.
  eexists. split; [reflexivity | split; [reflexivity | exact Hs]].
Qed.

Lemma place_image_initial_shape (self : MainWindow) (item : MovableImageItem.t) :
  loaded self item -> ends_in_clamp self (_place_image_initial self) item.
Proof.
  intros (Hi & Hw & Hh & Hpw & Hph & _). unfold _place_image_initial.
  rewrite Hi, (isNull_false _ Hpw Hph). cbv zeta.
  destruct (truediv_pos _ _ Hw Hpw) as (rw & -> & _ & Hrw).
  destruct (truediv_pos _ _ Hh Hph) as (rh & -> & _ & Hrh).
  eexists. split; [reflexivity | split; [reflexivity |]].
  cbn. now apply Py_min_pos.
Qed.

Lemma set_image_scale_percent_shape (self : MainWindow)
    (item : MovableImageItem.t) (percent : Q) :
  loaded self item -> ends_in_clamp self (set_image_scale_percent self percent) item.
Proof.
  intros (Hi & _). unfold set_image_scale_percent. rewrite Hi. cbv zeta.
  eexists. split; [reflexivity | split; [reflexivity |]].
  cbn. apply percent_scale_pos.
Qed.

Lemma mutate_shape (self : MainWindow) (item : MovableImageItem.t) (m : Mutation) :
  loaded self item ->
  mutate self m = self \/ ends_in_clamp self (mutate self m) item.
Proof.
  intros L. pose proof L as (Hi & Hw & Hh & Hpw & Hph & Hs).
  destruct m as [p | dx dy | zoom_in step | percent | d | | | | | | a]; cbn [mutate].
  - right. unfold drag_image_to. rewrite Hi.
    change (_on_scene_changed ?s) with (_clamp_image_pos s).
    eexists. split; [reflexivity | split; [reflexivity | exact Hs]].
  - right. unfold nudge_image_pos. rewrite Hi. cbv zeta.
    eexists. split; [reflexivity | split; [reflexivity | exact Hs]].
  - unfold zoom_image. rewrite Hi. cbv zeta.
    destruct Qlt_le_dec; [now left | right].
    eexists. split; [reflexivity | split; [reflexivity |]].
    cbn. pose proof (zoom_new_scale_bounds zoom_in step (MovableImageItem.scale item)). lra.
  - right. now apply set_image_scale_percent_shape.
  - right. unfold nudge_image_scale_percent. rewrite Hi. cbv zeta.
    now apply set_image_scale_percent_shape.
  - right. unfold fit_image_to_width. rewrite Hi. cbv zeta.
    destruct (truediv_pos _ _ Hw Hpw) as (s & -> & _ & Hpos).
    now apply apply_image_scale_and_center_shape.
  - right. unfold fit_image_to_height. rewrite Hi. cbv zeta.
    destruct (truediv_pos _ _ Hh Hph) as (s & -> & _ & Hpos).
    now apply apply_image_scale_and_center_shape.
  - right. unfold fit_image_contain. rewrite Hi. cbv zeta.
    destruct (truediv_pos _ _ Hw Hpw) as (rw & -> & _ & Hrw).
    destruct (truediv_pos _ _ Hh Hph) as (rh & -> & _ & Hrh).
    apply apply_image_scale_and_center_shape; [exact L | now apply Py_min_pos].
  - right. unfold reset_image_to_initial. rewrite Hi.
    now apply place_image_initial_shape.
  - right. unfold reset_image_scale_100. rewrite Hi.
    eexists. split; [reflexivity | split; [reflexivity |]]. cbn. lra.
  - right. destruct a; cbn [align];
      unfold align_center, align_center_vertical, align_center_horizontal,
        align_top, align_bottom, align_left, align_right;
      rewrite Hi; cbv zeta;
      (eexists; split; [reflexivity | split; [reflexivity | exact Hs]]).
Qed.

Lemma mutate_keeps_margin (self : MainWindow) (item : MovableImageItem.t) (m : Mutation) :
  loaded self item -> margin_overlap self ->
  margin_overlap (mutate self m) /\ exists item', loaded (mutate self m) item'.
Proof.
  intros L M. destruct (mutate_shape self item m L) as [-> | E].
  - split; [exact M | now exists item].
  - exact (ends_in_clamp_sound _ _ _ L E).
Qed.

Lemma open_image_loaded (self : MainWindow) (path : string) (pm : QPixmap.t) :
  (0 < OutputSize.w (output_size self))%Z ->
  (0 < OutputSize.h (output_size self))%Z ->
  (0 < QPixmap.width pm)%Z -> (0 < QPixmap.height pm)%Z ->
  margin_overlap (open_image_from_path self path pm) /\
  exists item, loaded (open_image_from_path self path pm) item.
Proof.
  intros Hw Hh Hpw Hph. unfold open_image_from_path.
  rewrite (isNull_false _ Hpw Hph).
  set (self0 := mkMainWindow _ _ _ _ _ _).
  assert (L0 : loaded self0 (MovableImageItem.new pm)).
  { unfold loaded. cbn. repeat split; try assumption; reflexivity. }
  destruct (ends_in_clamp_sound _ _ _ L0 (place_image_initial_shape _ _ L0))
    as (_ & item1 & L1).
  split; [exact (clamp_margin_overlap _ _ L1) |].
  destruct (clamp_loaded _ _ L1) as (item2 & L2 & _). now exists item2.
Qed.

Lemma mutations_keep_margin (ms : list Mutation) :
  forall self item, loaded self item -> margin_overlap self ->
    margin_overlap (fold_left mutate ms self).
Proof.
  induction ms as [| m ms IH]; intros self item L M; cbn [fold_left].
  - exact M.
  - destruct (mutate_keeps_margin self item m L M) as (M' & item' & L').
    exact (IH _ _ L' M').
Qed.

(** C2, as the specification states it, fails: in the clamp scenario the
    image is 100 pixels wide, so after the clamp it overlaps the 1920-pixel
    frame by 100 pixels, less than a quarter of the frame (480). *)
Lemma clamp_quarter_overlap_counterexample :
  loaded scenario_clamp
    (MovableImageItem.mk (QPixmap.mk 100 100) 1 (QPointF.mk 2000 0)) /\
  ~ quarter_overlap (_clamp_image_pos scenario_clamp).
Proof.
  split.
  - unfold loaded; cbn. repeat split; reflexivity.
  - intro H. image_of (_clamp_image_pos scenario_clamp) E.
    destruct (H _ E) as [Hx _]. vm_compute in Hx. now apply Hx.
Qed.

(** C2, amended.  For a loaded image in a frame, after [_clamp_image_pos] the
    scaled bounding box of the image overlaps the frame by at least
    min(0.25 * fw, iw * s) horizontally and min(0.25 * fh, ih * s) vertically;
    every position or scale command (drag, nudge, wheel zoom, percent entry,
    fit, reset, align) keeps that bound, and it holds after loading an image
    and any sequence of such commands. *)
Theorem clamp_keeps_margin_overlap :
  (forall self item, loaded self item -> margin_overlap (_clamp_image_pos self)) /\
  (forall self item m, loaded self item -> margin_overlap self ->
     margin_overlap (mutate self m) /\ exists item', loaded (mutate self m) item') /\
  (forall self path pm ms,
     (0 < OutputSize.w (output_size self))%Z ->
     (0 < OutputSize.h (output_size self))%Z ->
     (0 < QPixmap.width pm)%Z -> (0 < QPixmap.height pm)%Z ->
     margin_overlap (fold_left mutate ms (open_image_from_path self path pm))).
Proof.
  split; [exact clamp_margin_overlap | split].
  - intros self item m. apply mutate_keeps_margin.
  - intros self path pm ms Hw Hh Hpw Hph.
    destruct (open_image_loaded self path pm Hw Hh Hpw Hph) as (M & item & L).
    exact (mutations_keep_margin ms _ _ L M).
Qed.

Lemma clamp_keeps_margin_overlap_witness :
  margin_overlap (_clamp_image_pos scenario_clamp).
Proof.
  apply (proj1 clamp_keeps_margin_overlap scenario_clamp
           (MovableImageItem.mk (QPixmap.mk 100 100) 1 (QPointF.mk 2000 0))).
  unfold loaded; cbn. repeat split; reflexivity.
Defined.

(** ** Fit commands *)

Lemma half (a : Q) : a / 2 == a * (1 # 2).
Proof. field. Qed.

(** A centred position is never moved by the clamp. *)
Lemma clamp_code_centred (frame size : Q) :
  0 < frame -> 0 < size ->
  Py.min (frame - frame * 0.25) (Py.max (- size + frame * 0.25) ((frame - size) / 2))
  == (frame - size) / 2.
Proof.
  intros Hf Hs. apply clamp_code_fixed. rewrite half. lra.
Qed.

Lemma apply_image_scale_and_center_centred (self : MainWindow)
    (item : MovableImageItem.t) (s : Q) :
  loaded self item -> 0 < s ->
  exists p,
    _apply_image_scale_and_center self s
      = set_image_item self
          (Some (MovableImageItem.mk (MovableImageItem.pixmap item) s p)) /\
    QPointF.x p
      == (frame_w self - Py.float (QPixmap.width (MovableImageItem.pixmap item)) * s) / 2 /\
    QPointF.y p
      == (frame_h self - Py.float (QPixmap.height (MovableImageItem.pixmap item)) * s) / 2.
Proof.
  intros L Hs. pose proof L as (Hi & Hw & Hh & Hpw & Hph & _).
  pose proof (frame_w_pos _ _ L). pose proof (frame_h_pos _ _ L).
  unfold _apply_image_scale_and_center. rewrite Hi. cbv zeta.
  erewrite clamp_image_pos_unfold by reflexivity.
  eexists. split; [reflexivity |].
  cbn [QPointF.x QPointF.y]. unfold scaled_w, scaled_h, frame_w, frame_h. cbn.
  split; apply clamp_code_centred; try assumption;
    apply Qmult_lt_0_compat; try assumption; now apply float_pos.
Qed.

(** C3, as the specification states it, fails: from position (240, 100),
    fit-width moves the image to y = -180 (centred for the new scale 2.4),
    although y = 100 lies inside the clamp bounds [-1170, 810]. *)
Lemma fit_width_keeps_y_counterexample :
  (exists item, image_item scenario_fit = Some item /\
     QPointF.y (MovableImageItem.pos item) == 100) /\
  (exists item', image_item (fit_image_to_width scenario_fit) = Some item' /\
     QPointF.y (MovableImageItem.pos item') == -180) /\
  ~ fit_width_keeps_y scenario_fit.
Proof.
  split; [| split].
  - run_image. vm_compute. reflexivity.
  - run_image. vm_compute. reflexivity.
  - intro H. image_of scenario_fit E. image_of (fit_image_to_width scenario_fit) E'.
    specialize (H _ _ E E'). vm_compute in H. discriminate H.
Qed.

(** C3, amended.  For a loaded image in a frame, fit-width sets
    scale = fw / iw and centres the image on both axes, whatever the old
    position was: position = ((fw - iw*s) / 2, (fh - ih*s) / 2), so x = 0 and
    y is re-centred; fit-height does the same with scale = fh / ih, so y = 0.
    The final clamp leaves the centred position as it is. *)
Theorem fit_image_centres_both_axes :
  forall self item, loaded self item ->
    let fw := frame_w self in
    let fh := frame_h self in
    let iw := Py.float (QPixmap.width (MovableImageItem.pixmap item)) in
    let ih := Py.float (QPixmap.height (MovableImageItem.pixmap item)) in
    (exists p,
       fit_image_to_width self
         = set_image_item self
             (Some (MovableImageItem.mk (MovableImageItem.pixmap item) (fw / iw) p)) /\
       QPointF.x p == (fw - iw * (fw / iw)) / 2 /\ QPointF.x p == 0 /\
       QPointF.y p == (fh - ih * (fw / iw)) / 2) /\
    (exists p,
       fit_image_to_height self
         = set_image_item self
             (Some (MovableImageItem.mk (MovableImageItem.pixmap item) (fh / ih) p)) /\
       QPointF.x p == (fw - iw * (fh / ih)) / 2 /\
       QPointF.y p == (fh - ih * (fh / ih)) / 2 /\ QPointF.y p == 0).
Proof.
  intros self item L fw fh iw ih.
  pose proof L as (Hi & Hw & Hh & Hpw & Hph & _).
  assert (Hiw : 0 < iw) by now apply float_pos.
  assert (Hih : 0 < ih) by now apply float_pos.
  split.
  - unfold fit_image_to_width. rewrite Hi. cbv zeta.
    destruct (truediv_pos _ _ Hw Hpw) as (s & -> & Es & Hs).
    destruct (apply_image_scale_and_center_centred self item s L Hs) as (p & E & Hx & Hy).
    exists p. subst s. fold fw iw in Hx, Hy, E.
    split; [exact E | split; [exact Hx | split; [| exact Hy]]].
    rewrite Hx. unfold fw, iw, frame_w, Py.float in *. field. lra.
  - unfold fit_image_to_height. rewrite Hi. cbv zeta.
    destruct (truediv_pos _ _ Hh Hph) as (s & -> & Es & Hs).
    destruct (apply_image_scale_and_center_centred self item s L Hs) as (p & E & Hx & Hy).
    exists p. subst s. fold fh ih in Hx, Hy, E.
    split; [exact E | split; [exact Hx | split; [exact Hy |]]].
    rewrite Hy. unfold fh, ih, frame_h, Py.float in *. field. lra.
Qed.

Lemma fit_image_centres_both_axes_witness :
  exists p,
    fit_image_to_width scenario_clamp
      = set_image_item scenario_clamp
          (Some (MovableImageItem.mk (QPixmap.mk 100 100)
                   (frame_w scenario_clamp / Py.float 100) p)) /\
    QPointF.x p == 0.
Proof.
  destruct (proj1 (fit_image_centres_both_axes scenario_clamp
              (MovableImageItem.mk (QPixmap.mk 100 100) 1 (QPointF.mk 2000 0))
              ltac:(unfold loaded; cbn; repeat split; reflexivity)))
    as (p & E & _ & Hx & _).
  exists p. split; [exact E | exact Hx].
Defined.

(** ** Initial placement *)

Lemma place_image_initial_is_fit (self : MainWindow) (item : MovableImageItem.t) :
  loaded self item ->
  _place_image_initial self
  = _apply_image_scale_and_center self
      (Py.min (frame_w self / Py.float (QPixmap.width (MovableImageItem.pixmap item)))
              (frame_h self / Py.float (QPixmap.height (MovableImageItem.pixmap item)))).
Proof.
  intros (Hi & Hw & Hh & Hpw & Hph & _).
  unfold _place_image_initial, _apply_image_scale_and_center.
  rewrite Hi, (isNull_false _ Hpw Hph). cbv zeta.
  destruct (truediv_pos _ _ Hw Hpw) as (rw & -> & -> & _).
  destruct (truediv_pos _ _ Hh Hph) as (rh & -> & -> & _).
  reflexivity.
Qed.

Lemma fit_contain_scale_pos (self : MainWindow) (item : MovableImageItem.t) :
  loaded self item ->
  0 < Py.min (frame_w self / Py.float (QPixmap.width (MovableImageItem.pixmap item)))
             (frame_h self / Py.float (QPixmap.height (MovableImageItem.pixmap item))).
Proof.
  intros L. pose proof (frame_w_pos _ _ L). pose proof (frame_h_pos _ _ L).
  destruct L as (_ & _ & _ & Hpw & Hph & _).
  apply Py_min_pos; (apply Qlt_shift_div_l; [now apply float_pos | lra]).
Qed.

(** C6.  For a frame and an image with positive dimensions, the initial
    placement sets the scale to s = min(fw / iw, fh / ih) and the position to
    ((fw - iw*s) / 2, (fh - ih*s) / 2); loading an image ends in that
    placement; for the frame 1920 x 1080 and the image 800 x 600 the scale is
    1.8 and the position (240, 0). *)
Theorem place_image_initial_formula :
  (forall self item, loaded self item ->
     let fw := frame_w self in
     let fh := frame_h self in
     let iw := Py.float (QPixmap.width (MovableImageItem.pixmap item)) in
     let ih := Py.float (QPixmap.height (MovableImageItem.pixmap item)) in
     let s := Py.min (fw / iw) (fh / ih) in
     exists p,
       _place_image_initial self
         = set_image_item self
             (Some (MovableImageItem.mk (MovableImageItem.pixmap item) s p)) /\
       QPointF.x p == (fw - iw * s) / 2 /\
       QPointF.y p == (fh - ih * s) / 2) /\
  (forall self path pm,
     (0 < OutputSize.w (output_size self))%Z ->
     (0 < OutputSize.h (output_size self))%Z ->
     (0 < QPixmap.width pm)%Z -> (0 < QPixmap.height pm)%Z ->
     let fw := frame_w self in
     let fh := frame_h self in
     let iw := Py.float (QPixmap.width pm) in
     let ih := Py.float (QPixmap.height pm) in
     let s := Py.min (fw / iw) (fh / ih) in
     exists p,
       image_item (open_image_from_path self path pm)
         = Some (MovableImageItem.mk pm s p) /\
       QPointF.x p == (fw - iw * s) / 2 /\
       QPointF.y p == (fh - ih * s) / 2) /\
  (exists item,
     image_item scenario_load = Some item /\
     MovableImageItem.scale item == 1.8 /\
     QPointF.x (MovableImageItem.pos item) == 240 /\
     QPointF.y (MovableImageItem.pos item) == 0).
Proof.
  split; [| split].
  - intros self item L fw fh iw ih s.
    rewrite (place_image_initial_is_fit _ _ L).
    exact (apply_image_scale_and_center_centred self item s L
             (fit_contain_scale_pos _ _ L)).
  - intros self path pm Hw Hh Hpw Hph fw fh iw ih s.
    unfold open_image_from_path. rewrite (isNull_false _ Hpw Hph).
    set (self0 := mkMainWindow _ _ _ _ _ _).
    assert (L0 : loaded self0 (MovableImageItem.new pm)).
    { unfold loaded. cbn. repeat split; try assumption; reflexivity. }
    rewrite (place_image_initial_is_fit _ _ L0).
    destruct (apply_image_scale_and_center_centred self0 _ _ L0
                (fit_contain_scale_pos _ _ L0)) as (p & E & Hx & Hy).
    unfold _apply_image_scale_and_center in E |- *.
    cbn [image_item self0] in E |- *. cbv zeta in E |- *.
    rewrite clamp_twice, E.
    exists p. split; [reflexivity | split; [exact Hx | exact Hy]].
  - run_image. vm_compute. repeat split; reflexivity.
Qed.

Lemma place_image_initial_formula_witness :
  exists p,
    image_item (open_image_from_path (MainWindow_init [] []) "a.png" (QPixmap.mk 800 600))
      = Some (MovableImageItem.mk (QPixmap.mk 800 600)
                (Py.min (Py.float 1920 / Py.float 800) (Py.float 1080 / Py.float 600)) p) /\
    QPointF.x p
      == (Py.float 1920 - Py.float 800
            * Py.min (Py.float 1920 / Py.float 800) (Py.float 1080 / Py.float 600)) / 2 /\
    QPointF.y p
      == (Py.float 1080 - Py.float 600
            * Py.min (Py.float 1920 / Py.float 800) (Py.float 1080 / Py.float 600)) / 2.
Proof.
  apply (proj1 (proj2 place_image_initial_formula)
           (MainWindow_init [] []) "a.png"%string (QPixmap.mk 800 600));
    vm_compute; reflexivity.
Defined.

(** ** Anchor-preserving rescales *)

Lemma rescale_target_pos (r : Rescale) (old_s : Q) : 0 < rescale_target r old_s.
Proof.
  destruct r as [zoom_in step | percent |]; cbn [rescale_target].
  - pose proof (zoom_new_scale_bounds zoom_in step old_s). lra.
  - apply percent_scale_pos.
  - lra.
Qed.

Lemma eq_within (eps : Q) (p q : QPointF.t) :
  0 < eps -> QPointF.eq p q -> within eps p q.
Proof.
  intros He [Hx Hy]. unfold within.
  assert (Ex : QPointF.x p - QPointF.x q == 0) by lra.
  assert (Ey : QPointF.y p - QPointF.y q == 0) by lra.
  rewrite Ex, Ey. split; exact He.
Qed.

(** The algebra of the rescale: an item with the new scale, at the position
    that [rescale_about_center] computes, shows under the frame's centre the
    image point that was there before. *)
Lemma rescale_about_center_anchor (self : MainWindow)
    (item item' : MovableImageItem.t) (new_s : Q) :
  0 < new_s ->
  MovableImageItem.scale item' = new_s ->
  QPointF.eq (MovableImageItem.pos item')
             (MovableImageItem.pos (rescale_about_center self item new_s)) ->
  QPointF.eq (centre_local self item') (centre_local self item).
Proof.
  intros Hs Es [Hx Hy].
  unfold centre_local, MovableImageItem.mapFromScene, QPointF.eq.
  cbn [QPointF.x QPointF.y]. rewrite Es, Hx, Hy.
  unfold rescale_about_center, MovableImageItem.mapToScene, MovableImageItem.mapFromScene,
    MovableImageItem.setPos, MovableImageItem.setScale, QPointF.add, QPointF.sub.
  cbn [QPointF.x QPointF.y MovableImageItem.pos MovableImageItem.scale].
  generalize ((QPointF.x (frame_center self) - QPointF.x (MovableImageItem.pos item))
              / MovableImageItem.scale item).
  generalize ((QPointF.y (frame_center self) - QPointF.y (MovableImageItem.pos item))
              / MovableImageItem.scale item).
  intros ly lx. split; field; lra.
Qed.

Lemma clamp_keeps_scale (self : MainWindow) (item item' : MovableImageItem.t) :
  image_item self = Some item ->
  image_item (_clamp_image_pos self) = Some item' ->
  MovableImageItem.scale item' = MovableImageItem.scale item.
Proof.
  intros Hi Hi'. rewrite (clamp_image_pos_unfold _ _ Hi) in Hi'.
  cbn in Hi'. now injection Hi' as <-.
Qed.

Lemma rescale_unfold (self : MainWindow) (item : MovableImageItem.t) (r : Rescale) :
  image_item self = Some item ->
  rescale self r = self \/
  rescale self r
  = _clamp_image_pos
      (set_image_item self
         (Some (rescale_about_center self item
                  (rescale_target r (MovableImageItem.scale item))))).
Proof.
  intro Hi. destruct r as [zoom_in step | percent |]; cbn [rescale rescale_target].
  - unfold zoom_image. rewrite Hi. cbv zeta. destruct Qlt_le_dec; [now left | now right].
  - right. unfold set_image_scale_percent. now rewrite Hi.
  - right. unfold reset_image_scale_100. now rewrite Hi.
Qed.

(** C4.  For a loaded image at any positive scale and any position, and any
    of the three anchor-preserving rescales (wheel zoom, percent entry, reset
    to 100 %, whose new scale is 1.0): the rescale either changes nothing or
    sets the scale it asks for, and, provided the final clamp does not move
    the position that the rescale computed, the image-local point under the
    frame's centre after the rescale is the one that was there before (equal,
    hence within 1e-6). *)
Theorem rescale_preserves_centre :
  forall self item r item',
    image_item self = Some item ->
    0 < MovableImageItem.scale item ->
    image_item (rescale self r) = Some item' ->
    (let unclamped :=
       set_image_item self
         (Some (rescale_about_center self item
                  (rescale_target r (MovableImageItem.scale item)))) in
     same_image_pos (_clamp_image_pos unclamped) unclamped) ->
    (rescale self r = self \/
     MovableImageItem.scale item' = rescale_target r (MovableImageItem.scale item)) /\
    QPointF.eq (centre_local self item') (centre_local self item) /\
    within 0.000001 (centre_local self item') (centre_local self item).
Proof.
  intros self item r item' Hi Hs Hi' Hfix.
  enough (E : (rescale self r = self \/
               MovableImageItem.scale item'
               = rescale_target r (MovableImageItem.scale item)) /\
              QPointF.eq (centre_local self item') (centre_local self item)).
  { destruct E as [E1 E2].
    split; [exact E1 | split; [exact E2 | apply eq_within; [reflexivity | exact E2]]]. }
  destruct (rescale_unfold self item r Hi) as [E | E]; rewrite E in Hi'.
  - split; [now left |].
    rewrite Hi in Hi'. injection Hi' as <-. split; reflexivity.
  - assert (Es : MovableImageItem.scale item'
                 = rescale_target r (MovableImageItem.scale item)).
    { set (mid := rescale_about_center self item
                    (rescale_target r (MovableImageItem.scale item))) in *.
      rewrite (clamp_keeps_scale (set_image_item self (Some mid)) mid item' eq_refl Hi').
      reflexivity. }
    split; [now right |].
    cbv zeta in Hfix. unfold same_image_pos in Hfix. rewrite Hi' in Hfix.
    cbn [image_item set_image_item] in Hfix.
    apply rescale_about_center_anchor
      with (new_s := rescale_target r (MovableImageItem.scale item)).
    + apply rescale_target_pos.
    + exact Es.
    + exact Hfix.
Qed.

Lemma rescale_preserves_centre_witness :
  exists item',
    image_item (rescale scenario_load (ByWheel true "normal")) = Some item' /\
    QPointF.eq (centre_local scenario_load item') (QPointF.mk 400 300).
Proof.
  run_image.
  image_of scenario_load E.
  image_of (rescale scenario_load (ByWheel true "normal")) E'.
  destruct (rescale_preserves_centre scenario_load _ (ByWheel true "normal") _ E
              ltac:(vm_compute; reflexivity) E'
              ltac:(vm_compute; split; reflexivity)) as (_ & [Hx Hy] & _).
  split; [rewrite Hx | rewrite Hy]; vm_compute; reflexivity.
Defined.

(** ** Zoom steps and scale bounds *)

Lemma clamp_code_is_clamp_outer_max (v lo hi : Q) :
  lo <= hi -> Py.max lo (Py.min hi v) == clamp v lo hi.
Proof.
  intro H. unfold clamp, Py.min, Py.max. repeat destruct Qlt_le_dec; lra.
Qed.

(** C5, as the specification states it, fails: after the percentage
    1.99999999999 was entered the scale is 0.0199999999999; a wheel zoom out
    computes the clamped scale 0.02, finds it within 1e-12 of the current one
    and returns without changing anything, so the scale stays below 0.02 (and
    is not the old scale divided by 1.15 either). *)
Lemma wheel_zoom_scale_in_range_counterexample :
  (exists item, image_item scenario_zoom = Some item /\
     MovableImageItem.scale item == 0.0199999999999) /\
  zoom_image scenario_zoom false "normal" = scenario_zoom /\
  ~ wheel_zoom_scale_in_range scenario_zoom false "normal".
Proof.
  split; [| split].
  - run_image. vm_compute. reflexivity.
  - vm_compute. reflexivity.
  - intro H. image_of (zoom_image scenario_zoom false "normal") E.
    destruct (H _ E) as [Hlo _]. vm_compute in Hlo. now apply Hlo.
Qed.

Lemma zoom_image_unfold (self : MainWindow) (item : MovableImageItem.t)
    (zoom_in : bool) (step : string) :
  image_item self = Some item ->
  let target := zoom_new_scale zoom_in step (MovableImageItem.scale item) in
  (Qabs (target - MovableImageItem.scale item) < zoom_noop_threshold ->
   zoom_image self zoom_in step = self) /\
  (zoom_noop_threshold <= Qabs (target - MovableImageItem.scale item) ->
   exists item', image_item (zoom_image self zoom_in step) = Some item' /\
     MovableImageItem.scale item' = target).
Proof.
  intros Hi target. unfold zoom_image. rewrite Hi. cbv zeta. fold target.
  unfold Py.abs. destruct Qlt_le_dec as [Hlt | Hge]; split; intro H.
  - reflexivity.
  - lra.
  - lra.
  - erewrite clamp_image_pos_unfold by reflexivity.
    eexists. split; reflexivity.
Qed.

(** C5, amended.  The wheel-zoom factor is 1.15 for a normal step, 1.03 for a
    fine one and 1.01 for an ultra one when zooming in, and its inverse when
    zooming out (the scale is divided by it).  The scale a wheel zoom aims at
    is the old scale times that factor, clamped to [0.02, 50.0] (the product
    itself when it lies in that interval); the zoom sets the scale to it,
    except that it changes nothing when that scale is within 1e-12 of the
    current one (so a scale already in [0.02, 50.0] stays there).  The
    percentage path clamps the percentage to [1.0, 5000.0] and sets the scale
    to percentage / 100. *)
Theorem zoom_steps_and_scale_bounds :
  (zoom_base "normal" = 1.15 /\ zoom_base "fine" = 1.03 /\ zoom_base "ultra" = 1.01) /\
  (forall step old_s,
     old_s * zoom_factor true step = old_s * zoom_base step /\
     old_s * zoom_factor false step == old_s / zoom_base step) /\
  (forall self item zoom_in step,
     image_item self = Some item ->
     let old_s := MovableImageItem.scale item in
     let target := zoom_new_scale zoom_in step old_s in
     target == clamp (old_s * zoom_factor zoom_in step) 0.02 50.0 /\
     (0.02 <= old_s * zoom_factor zoom_in step <= 50.0 ->
      target == old_s * zoom_factor zoom_in step) /\
     0.02 <= target <= 50.0 /\
     (zoom_noop_threshold <= Qabs (target - old_s) ->
      exists item', image_item (zoom_image self zoom_in step) = Some item' /\
        MovableImageItem.scale item' = target) /\
     (Qabs (target - old_s) < zoom_noop_threshold ->
      zoom_image self zoom_in step = self) /\
     (0.02 <= old_s <= 50.0 ->
      exists item', image_item (zoom_image self zoom_in step) = Some item' /\
        0.02 <= MovableImageItem.scale item' <= 50.0)) /\
  (forall self item percent,
     image_item self = Some item ->
     exists item', image_item (set_image_scale_percent self percent) = Some item' /\
       MovableImageItem.scale item' * 100 == clamp percent 1.0 5000.0 /\
       1.0 <= MovableImageItem.scale item' * 100 <= 5000.0).
Proof.
  split; [repeat split | split; [| split]].
  - intros step old_s. split; [reflexivity |].
    unfold zoom_factor, zoom_base.
    destruct (String.eqb step "ultra"); [| destruct (String.eqb step "fine")];
      cbv beta iota zeta; unfold Qdiv; ring.
  - intros self item zoom_in step Hi old_s target.
    destruct (zoom_image_unfold self item zoom_in step Hi) as [Hnoop Hset].
    fold old_s target in Hnoop, Hset.
    pose proof (zoom_new_scale_bounds zoom_in step old_s) as Hb. fold target in Hb.
    assert (Hc : target == clamp (old_s * zoom_factor zoom_in step) 0.02 50.0).
    { unfold target, zoom_new_scale. apply clamp_code_is_clamp_outer_max. lra. }
    split; [exact Hc |].
    split; [| split; [exact Hb | split; [exact Hset | split; [exact Hnoop |]]]].
    + intro Hin. rewrite Hc. unfold clamp. repeat destruct Qlt_le_dec; lra.
    + intro Hold.
      destruct (Qlt_le_dec (Qabs (target - old_s)) zoom_noop_threshold) as [Hlt | Hge].
      * rewrite (Hnoop Hlt). exists item. split; [exact Hi | exact Hold].
      * destruct (Hset Hge) as (item' & Hi' & Es).
        exists item'. split; [exact Hi' | rewrite Es; exact Hb].
  - intros self item percent Hi.
    unfold set_image_scale_percent. rewrite Hi. cbv zeta.
    erewrite clamp_image_pos_unfold by reflexivity.
    eexists. split; [reflexivity |].
    cbn [MovableImageItem.scale MovableImageItem.setPos rescale_about_center
         MovableImageItem.setScale].
    assert (E : Py.max 1.0 (Py.min 5000.0 percent) / 100.0 * 100
                == Py.max 1.0 (Py.min 5000.0 percent)) by field.
    rewrite E. split.
    + apply clamp_code_is_clamp_outer_max. lra.
    + apply percent_clamp_bounds.
Qed.

Lemma zoom_steps_and_scale_bounds_witness :
  exists item',
    image_item (zoom_image scenario_load true "fine") = Some item' /\
    0.02 <= MovableImageItem.scale item' <= 50.0.
Proof.
  image_of scenario_load E.
  destruct (proj1 (proj2 (proj2 zoom_steps_and_scale_bounds))
              scenario_load _ true "fine"%string E) as (_ & _ & _ & _ & _ & H).
  apply H. vm_compute. split; discriminate.
Defined.

(** ** Composite rendering: the empty canvas and the resize size *)

Example round_half_even :
  Py.round 0.5 = 0%Z /\ Py.round 1.5 = 2%Z /\ Py.round 2.5 = 2%Z /\
  Py.round (-0.5) = 0%Z /\ Py.round (-1.5) = (-2)%Z /\ Py.round 0.2 = 0%Z /\
  Py.round 1439.6 = 1440%Z.
Proof. vm_compute. repeat split; reflexivity. Qed.

Lemma max_int_ge (a b : Z) : (a <= Py.max_int a b)%Z /\ Py.max_int a b = Z.max a b.
Proof. unfold Py.max_int. destruct (Z.ltb_spec a b); lia. Qed.

Lemma PIL_new_filled (m : PIL.mode) (w h : Z) (color : PIL.pixel) :
  (0 <= w)%Z -> (0 <= h)%Z ->
  exists canvas,
    PIL.new m (w, h) color = Some canvas /\
    PIL.im_mode canvas = m /\ PIL.width canvas = w /\ PIL.height canvas = h /\
    length (PIL.rows canvas) = Z.to_nat h /\
    Forall (fun row => length row = Z.to_nat w) (PIL.rows canvas) /\
    Forall (Forall (eq color)) (PIL.rows canvas).
Proof.
  intros Hw Hh. unfold PIL.new.
  destruct ((w <? 0) || (h <? 0))%Z eqn:E.
  - apply orb_true_iff in E. destruct E as [E | E]; apply Z.ltb_lt in E; lia.
  - eexists. split; [reflexivity |]. cbn.
    repeat split; try reflexivity.
    + apply repeat_length.
    + apply Forall_forall. intros row Hrow.
      apply repeat_spec in Hrow. subst row. apply repeat_length.
    + apply Forall_forall. intros row Hrow.
      apply repeat_spec in Hrow. subst row.
      apply Forall_forall. intros px Hpx. apply repeat_spec in Hpx. now subst px.
Qed.

(** C7.  With no image loaded, [_render_output_pil] returns the canvas that
    [Image.new] made, unchanged: an image of exactly fw x fh pixels (fh rows of
    fw pixels) each of which is the background colour, fully opaque
    (r, g, b, 255).  The imaging library's functions take no part in it. *)
Theorem render_without_image :
  forall (load : string -> option PIL.Image)
         (convert : PIL.Image -> PIL.mode -> PIL.Image)
         (resample : PIL.Image -> Z * Z -> PIL.Image)
         (paste : PIL.Image -> PIL.Image -> Z * Z -> PIL.Image -> PIL.Image)
         (self : MainWindow),
    let fw := OutputSize.w (output_size self) in
    let fh := OutputSize.h (output_size self) in
    let bg := [QColor.red (bg_color self); QColor.green (bg_color self);
               QColor.blue (bg_color self); 255%Z] in
    (0 <= fw)%Z -> (0 <= fh)%Z ->
    image_item self = None ->
    exists canvas,
      _render_output_pil load convert resample paste self = Some canvas /\
      PIL.new PIL.RGBA (fw, fh) bg = Some canvas /\
      PIL.width canvas = fw /\ PIL.height canvas = fh /\
      length (PIL.rows canvas) = Z.to_nat fh /\
      Forall (fun row => length row = Z.to_nat fw) (PIL.rows canvas) /\
      Forall (Forall (eq bg)) (PIL.rows canvas).
Proof.
  intros load convert resample paste self fw fh bg Hw Hh Hnone.
  destruct (PIL_new_filled PIL.RGBA fw fh bg Hw Hh)
    as (canvas & Hnew & _ & Ew & Eh & Hrows & Hcols & Hfill).
  exists canvas. unfold _render_output_pil.
  change ([QColor.red (bg_color self); QColor.green (bg_color self);
           QColor.blue (bg_color self)] ++ [255%Z]) with bg.
  fold fw fh. rewrite Hnew, Hnone.
  repeat split; try assumption.
  now destruct (_image_path self).
Qed.

Lemma render_without_image_witness :
  exists canvas,
    _render_output_pil (fun _ => None) (fun im _ => im) (fun im _ => im)
      (fun canvas _ _ _ => canvas) (MainWindow_init [] []) = Some canvas /\
    PIL.new PIL.RGBA (1920, 1080)%Z [255; 255; 255; 255]%Z = Some canvas /\
    PIL.width canvas = 1920%Z /\ PIL.height canvas = 1080%Z /\
    length (PIL.rows canvas) = Z.to_nat 1080 /\
    Forall (fun row => length row = Z.to_nat 1920) (PIL.rows canvas) /\
    Forall (Forall (eq [255; 255; 255; 255]%Z)) (PIL.rows canvas).
Proof.
  apply (render_without_image (fun _ => None) (fun im _ => im) (fun im _ => im)
           (fun canvas _ _ _ => canvas) (MainWindow_init [] [])).
  - discriminate.
  - discriminate.
  - reflexivity.
Defined.

(** C10.  Whatever the source size and the scale, the size passed to the
    resize step is (max(1, round(iw*s)), max(1, round(ih*s))): both are at
    least 1, the library's size check accepts it, so [resize] never raises and
    a render whose source loads always produces an image.  With iw = 10 and
    s = 0.02 the rounded width is 0 and the size used is 1. *)
Theorem render_resize_size_at_least_one :
  (forall (iw ih : Z) (s : Q),
     render_resize_size iw ih s
       = (Z.max 1 (Py.round (Py.float iw * s)), Z.max 1 (Py.round (Py.float ih * s))) /\
     (1 <= fst (render_resize_size iw ih s))%Z /\
     (1 <= snd (render_resize_size iw ih s))%Z /\
     PIL.resize_rejects (render_resize_size iw ih s) = false) /\
  (forall (resample : PIL.Image -> Z * Z -> PIL.Image) (src : PIL.Image) (s : Q),
     resize resample src (render_resize_size (PIL.width src) (PIL.height src) s)
     = Some (resample src (render_resize_size (PIL.width src) (PIL.height src) s))) /\
  (forall load convert resample paste self path item src,
     (0 <= OutputSize.w (output_size self))%Z ->
     (0 <= OutputSize.h (output_size self))%Z ->
     _image_path self = Some path -> path <> EmptyString ->
     image_item self = Some item ->
     load path = Some src ->
     _render_output_pil load convert resample paste self <> None) /\
  (Py.round (Py.float 10 * 0.02) = 0%Z /\ render_resize_size 10 10 0.02 = (1, 1)%Z).
Proof.
  assert (A : forall iw ih s,
     render_resize_size iw ih s
       = (Z.max 1 (Py.round (Py.float iw * s)), Z.max 1 (Py.round (Py.float ih * s))) /\
     (1 <= fst (render_resize_size iw ih s))%Z /\
     (1 <= snd (render_resize_size iw ih s))%Z /\
     PIL.resize_rejects (render_resize_size iw ih s) = false).
  { intros iw ih s. unfold render_resize_size, PIL.resize_rejects. cbn [fst snd].
    destruct (max_int_ge 1 (Py.round (Py.float iw * s))) as [H1 ->].
    destruct (max_int_ge 1 (Py.round (Py.float ih * s))) as [H2 ->].
    repeat split; lia. }
  assert (B : forall (resample : PIL.Image -> Z * Z -> PIL.Image) src s,
     resize resample src (render_resize_size (PIL.width src) (PIL.height src) s)
     = Some (resample src (render_resize_size (PIL.width src) (PIL.height src) s))).
  { intros resample src s. unfold resize.
    destruct (A (PIL.width src) (PIL.height src) s) as (_ & _ & _ & ->). reflexivity. }
  split; [exact A | split; [exact B | split]].
  - intros load convert resample paste self path item src Hw Hh Hpath Hne Hi Hload.
    unfold _render_output_pil.
    destruct (PIL_new_filled PIL.RGBA _ _
                ([QColor.red (bg_color self); QColor.green (bg_color self);
                  QColor.blue (bg_color self)] ++ [255%Z]) Hw Hh) as (canvas & -> & _).
    rewrite Hpath, Hi.
    destruct (String.eqb path EmptyString) eqn:E; [apply String.eqb_eq in E; contradiction |].
    rewrite Hload. cbv zeta. rewrite B. discriminate.
  - vm_compute. split; reflexivity.
Qed.

Lemma render_resize_size_at_least_one_witness :
  _render_output_pil
    (fun _ => Some (PIL.mkImage PIL.RGB 10 10 []))
    (fun im _ => im) (fun im _ => im) (fun canvas _ _ _ => canvas)
    scenario_load <> None.
Proof.
  image_of scenario_load E.
  refine (proj1 (proj2 (proj2 render_resize_size_at_least_one))
            (fun _ => Some (PIL.mkImage PIL.RGB 10 10 []))
            (fun im _ => im) (fun im _ => im) (fun canvas _ _ _ => canvas)
            scenario_load "a.png"%string _ (PIL.mkImage PIL.RGB 10 10 [])
            _ _ _ _ E _).
  - vm_compute. discriminate.
  - vm_compute. discriminate.
  - vm_compute. reflexivity.
  - discriminate.
  - reflexivity.
Defined.

(** ** Recent lists *)

Section RecentList.

Context {A : Type} (eqb : A -> A -> bool).
Hypothesis eqb_spec : forall x y, eqb x y = true <-> x = y.
Variable eq_dec : forall x y : A, {x = y} + {x <> y}.

Lemma keep_other (key x : A) : negb (eqb x key) = true <-> x <> key.
Proof.
  rewrite negb_true_iff, <- not_true_iff_false, eqb_spec. reflexivity.
Qed.

Lemma filter_other_remove (key : A) (l : list A) :
  filter (fun x => negb (eqb x key)) l = remove eq_dec key l.
Proof.
  induction l as [| x l IH]; cbn; [reflexivity |].
  destruct (eq_dec key x) as [<- | Hne].
  - assert (E : eqb key key = true) by now apply eqb_spec.
    rewrite E. cbn. exact IH.
  - assert (E : negb (eqb x key) = true) by (apply keep_other; congruence).
    rewrite E, IH. reflexivity.
Qed.

Lemma filter_other_notin (key : A) (l : list A) :
  ~ In key l -> filter (fun x => negb (eqb x key)) l = l.
Proof.
  intro H. rewrite filter_other_remove. now apply notin_remove.
Qed.

Lemma filter_other_In (key x : A) (l : list A) :
  In x (filter (fun y => negb (eqb y key)) l) <-> In x l /\ x <> key.
Proof. rewrite filter_In, keep_other. reflexivity. Qed.

Lemma In_firstn (n : nat) (x : A) (l : list A) : In x (firstn n l) -> In x l.
Proof.
  revert l. induction n as [| n IH]; intros [| y l]; cbn; try tauto.
  intros [-> | H]; [now left | right; now apply IH].
Qed.

Lemma NoDup_firstn (n : nat) (l : list A) : NoDup l -> NoDup (firstn n l).
Proof.
  revert l. induction n as [| n IH]; intros [| y l] H; cbn; try constructor.
  - inversion_clear H as [| ? ? Hy Hl]. intro Hin. apply Hy. now apply In_firstn in Hin.
  - inversion_clear H. now apply IH.
Qed.

Lemma remember_front_spec (key : A) (l : list A) :
  remembered eq_dec key l (remember_front eqb key l).
Proof.
  unfold remembered, remember_front.
  change 10%nat with (S 9). rewrite !firstn_cons. cbn [hd_error tl].
  repeat split.
  - intro H. apply In_firstn, filter_other_In in H. now destruct H.
  - cbn [length]. pose proof (firstn_le_length 9 (filter (fun x => negb (eqb x key)) l)).
    now apply le_n_S.
  - intros _. now rewrite filter_other_remove.
  - intro H. now rewrite (filter_other_notin _ _ H).
  - intro H. constructor.
    + intro Hin. apply In_firstn, filter_other_In in Hin. now destruct Hin.
    + now apply NoDup_firstn, NoDup_filter.
Qed.

Lemma NoDup_distinct (l : list A) : NoDup (distinct eqb l).
Proof.
  induction l as [| x l IH]; cbn; constructor.
  - intro H. apply filter_other_In in H. now destruct H.
  - now apply NoDup_filter.
Qed.

(** Cutting a duplicate-free list to [n + 1] entries before dropping one
    value loses nothing among the first [n] that remain. *)
Lemma firstn_filter_other (key : A) (l : list A) :
  NoDup l ->
  forall n,
    firstn n (filter (fun x => negb (eqb x key)) (firstn (S n) l))
    = firstn n (filter (fun x => negb (eqb x key)) l).
Proof.
  induction 1 as [| x l Hx Hl IH]; intro n; [reflexivity |].
  cbn [firstn filter].
  destruct (eq_dec x key) as [-> | Hne].
  - assert (E : eqb key key = true) by now apply eqb_spec.
    rewrite E. cbn [negb].
    rewrite (filter_other_notin key l Hx).
    rewrite filter_other_notin
      by (intro Hin; apply Hx; now apply In_firstn in Hin).
    now rewrite firstn_firstn, Nat.min_id.
  - assert (E : negb (eqb x key) = true) by now apply keep_other.
    rewrite E. destruct n as [| n]; [reflexivity |].
    cbn [firstn]. f_equal. apply IH.
Qed.

(** The history of remembered values, oldest first, determines the list:
    its distinct values, the most recent first, cut to ten. *)
Lemma remember_front_history (history : list A) :
  fold_left (fun l key => remember_front eqb key l) history []
  = firstn 10 (distinct eqb (rev history)).
Proof.
  induction history as [| key history IH] using rev_ind; [reflexivity |].
  rewrite fold_left_app, rev_app_distr. cbn [fold_left rev app distinct].
  rewrite IH. unfold remember_front.
  change 10%nat with (S 9). rewrite !firstn_cons. f_equal.
  apply firstn_filter_other, NoDup_distinct.
Qed.

End RecentList.

Lemma size_eqb_spec (a b : Z * Z) : size_eqb a b = true <-> a = b.
Proof.
  destruct a as [a1 a2], b as [b1 b2]. unfold size_eqb. cbn [fst snd].
  rewrite andb_true_iff, !Z.eqb_eq. split; [intros [-> ->]; reflexivity |].
  intro H. injection H as -> ->. split; reflexivity.
Qed.

Lemma remember_sizes_list (history : list (Z * Z)) (self : MainWindow) :
  _recent_sizes (remember_sizes self history)
  = fold_left (fun l key => remember_front size_eqb key l) history (_recent_sizes self).
Proof.
  revert self. induction history as [| [w h] history IH]; intro self; [reflexivity |].
  cbn [remember_sizes fold_left fst snd]. apply IH.
Qed.

Lemma remember_colors_list (history : list QColor.t) (self : MainWindow) :
  _recent_bg_colors (remember_colors self history)
  = fold_left (fun l key => remember_front String.eqb key l)
      (map QColor.name_upper history) (_recent_bg_colors self).
Proof.
  revert self. induction history as [| c history IH]; intro self; [reflexivity |].
  cbn [remember_colors fold_left map]. apply IH.
Qed.

Section RecentInvariant.

Context {A : Type} (eqb : A -> A -> bool).
Hypothesis eqb_spec : forall x y, eqb x y = true <-> x = y.
Variable eq_dec : forall x y : A, {x = y} + {x <> y}.

Lemma remember_front_fold_NoDup (history l : list A) :
  NoDup l -> NoDup (fold_left (fun l key => remember_front eqb key l) history l).
Proof.
  revert l. induction history as [| key history IH]; intros l H; [exact H |].
  cbn [fold_left]. apply IH.
  now apply (remember_front_spec eqb eqb_spec eq_dec key l).
Qed.

Lemma remember_front_fold_length (history l : list A) :
  history <> [] ->
  (length (fold_left (fun l key => remember_front eqb key l) history l) <= 10)%nat.
Proof.
  intro Hne. destruct (exists_last Hne) as (history' & key & ->).
  rewrite fold_left_app. cbn [fold_left].
  now apply (remember_front_spec eqb eqb_spec eq_dec key).
Qed.

End RecentInvariant.

(** C8.  One remember operation on either recent list (custom sizes, keyed by
    (w, h); background colours, keyed by the "#RRGGBB" name) puts the value first
    and nowhere else, keeps at most ten entries, equals the old list with the
    value moved to the front when it was present and with the value inserted
    at the front when it was not (cut to ten), and keeps a duplicate-free list
    duplicate-free.  Over a session, a duplicate-free list stays so, the list
    has at most ten entries after any remember operation, and a list that
    started empty holds the distinct remembered values, the most recent
    first, cut to ten. *)
Theorem remember_recent_values :
  (forall self w h,
     remembered size_dec (w, h) (_recent_sizes self)
       (_recent_sizes (_remember_custom_size self w h))) /\
  (forall self c,
     remembered string_dec (QColor.name_upper c) (_recent_bg_colors self)
       (_recent_bg_colors (_remember_bg_color self c))) /\
  (forall self history,
     (NoDup (_recent_sizes self) -> NoDup (_recent_sizes (remember_sizes self history))) /\
     (history <> [] -> (length (_recent_sizes (remember_sizes self history)) <= 10)%nat) /\
     _recent_sizes (remember_sizes (_clear_recent_sizes self) history)
       = firstn 10 (distinct size_eqb (rev history))) /\
  (forall self history,
     (NoDup (_recent_bg_colors self) ->
      NoDup (_recent_bg_colors (remember_colors self history))) /\
     (history <> [] ->
      (length (_recent_bg_colors (remember_colors self history)) <= 10)%nat) /\
     _recent_bg_colors (remember_colors (_clear_recent_bg_colors self) history)
       = firstn 10 (distinct String.eqb (rev (map QColor.name_upper history)))).
Proof.
  split; [| split; [| split]].
  - intros self w h.
    exact (remember_front_spec size_eqb size_eqb_spec size_dec (w, h) (_recent_sizes self)).
  - intros self c.
    exact (remember_front_spec String.eqb String.eqb_eq string_dec
             (QColor.name_upper c) (_recent_bg_colors self)).
  - intros self history. rewrite !remember_sizes_list. split; [| split].
    + apply (remember_front_fold_NoDup size_eqb size_eqb_spec size_dec).
    + apply (remember_front_fold_length size_eqb size_eqb_spec size_dec).
    + apply (remember_front_history size_eqb size_eqb_spec size_dec).
  - intros self history. rewrite !remember_colors_list. split; [| split].
    + apply (remember_front_fold_NoDup String.eqb String.eqb_eq string_dec).
    + intro Hne.
      apply (remember_front_fold_length String.eqb String.eqb_eq string_dec).
      destruct history; [contradiction | discriminate].
    + apply (remember_front_history String.eqb String.eqb_eq string_dec).
Qed.

Lemma remember_recent_values_witness :
  _recent_sizes
    (_remember_custom_size (MainWindow_init [(800, 600); (1280, 720)]%Z []) 1280 720)
  = [(1280, 720); (800, 600)]%Z.
Proof.
  destruct (proj1 remember_recent_values
              (MainWindow_init [(800, 600); (1280, 720)]%Z []) 1280%Z 720%Z)
    as (_ & _ & _ & Hin & _).
  rewrite Hin; [reflexivity |].
  right. left. reflexivity.
Defined.

(** ** The scenarios in binary64 *)

(** The numbers of the scenarios are the same with rounding: the clamp
    scenario gives x = 1440 (and y = 170); loading the 800 x 600 image gives
    scale 1.8 at (240, 0); fit-width from there gives scale 2.4 and y = -180;
    and the percentage 1.99999999999 gives a scale below 0.02 from which a
    wheel zoom out returns early. *)
Example scenarios_binary64 :
  Binary64.clamp_axis 1920 (100 * 1) 2000 = 1440%float /\
  Binary64.clamp_axis 1080 (100 * 1) 0 = 170%float /\
  Binary64.initial_scale 1920 1080 800 600 = 1.8%float /\
  Binary64.centred 1920 (800 * Binary64.initial_scale 1920 1080 800 600) = 240%float /\
  Binary64.centred 1080 (600 * Binary64.initial_scale 1920 1080 800 600) = 0%float /\
  Binary64.clamp_axis 1080 (600 * (1920 / 800)) (Binary64.centred 1080 (600 * (1920 / 800)))
    = (-180)%float /\
  PrimFloat.ltb (Binary64.percent_scale 1.99999999999) 0.02 = true /\
  Binary64.zoom_new_scale (1 / 1.15) (Binary64.percent_scale 1.99999999999) = 0.02%float /\
  Binary64.zoom_returns_early
    (Binary64.zoom_new_scale (1 / 1.15) (Binary64.percent_scale 1.99999999999))
    (Binary64.percent_scale 1.99999999999) = true.
Proof. vm_compute. repeat split; reflexivity. Qed.

(** * Further properties of the code *)

(** ** Fit-contain *)

Lemma mul_div_cancel (a b : Q) : 0 < b -> b * (a / b) == a.
Proof. intro H. field. lra. Qed.

Lemma Py_min_le (a b : Q) :
  Py.min a b <= a /\ Py.min a b <= b /\ (Py.min a b = a \/ Py.min a b = b).
Proof. unfold Py.min. destruct Qlt_le_dec; repeat split; auto; lra. Qed.

Lemma fit_image_contain_unfold (self : MainWindow) (item : MovableImageItem.t) :
  loaded self item ->
  fit_image_contain self
  = _apply_image_scale_and_center self
      (Py.min (frame_w self / Py.float (QPixmap.width (MovableImageItem.pixmap item)))
              (frame_h self / Py.float (QPixmap.height (MovableImageItem.pixmap item)))).
Proof.
  intros (Hi & Hw & Hh & Hpw & Hph & _). unfold fit_image_contain.
  rewrite Hi. cbv zeta.
  destruct (truediv_pos _ _ Hw Hpw) as (rw & -> & -> & _).
  destruct (truediv_pos _ _ Hh Hph) as (rh & -> & -> & _).
  reflexivity.
Qed.

(** X1.  Fit-contain makes the whole image visible: for a loaded image in a
    frame, the scaled image is at most as wide and as high as the frame, fills
    the frame in at least one of the two directions, is centred, and lies
    entirely inside the frame. *)
Theorem fit_image_contain_inside_frame :
  forall self item, loaded self item ->
    exists item',
      image_item (fit_image_contain self) = Some item' /\
      scaled_w item' <= frame_w self /\
      scaled_h item' <= frame_h self /\
      (scaled_w item' == frame_w self \/ scaled_h item' == frame_h self) /\
      QPointF.x (MovableImageItem.pos item') == (frame_w self - scaled_w item') / 2 /\
      QPointF.y (MovableImageItem.pos item') == (frame_h self - scaled_h item') / 2 /\
      0 <= QPointF.x (MovableImageItem.pos item') /\
      QPointF.x (MovableImageItem.pos item') + scaled_w item' <= frame_w self /\
      0 <= QPointF.y (MovableImageItem.pos item') /\
      QPointF.y (MovableImageItem.pos item') + scaled_h item' <= frame_h self.
Proof.
  intros self item L.
  rewrite (fit_image_contain_unfold _ _ L).
  destruct (apply_image_scale_and_center_centred self item _ L
              (fit_contain_scale_pos _ _ L)) as (p & -> & Hx & Hy).
  pose proof L as (_ & _ & _ & Hpw & Hph & _).
  apply float_pos in Hpw, Hph.
  set (iw := Py.float (QPixmap.width (MovableImageItem.pixmap item))) in *.
  set (ih := Py.float (QPixmap.height (MovableImageItem.pixmap item))) in *.
  set (s := Py.min (frame_w self / iw) (frame_h self / ih)) in *.
  eexists. split; [reflexivity |].
  unfold scaled_w, scaled_h. cbn [MovableImageItem.pixmap MovableImageItem.scale
                                   MovableImageItem.pos].
  fold iw ih.
  destruct (Py_min_le (frame_w self / iw) (frame_h self / ih)) as (Hlw & Hlh & Hor).
  fold s in Hlw, Hlh, Hor.
  assert (Hw : iw * s <= frame_w self).
  { rewrite <- (mul_div_cancel (frame_w self) iw Hpw). now apply Qmult_le_l. }
  assert (Hh : ih * s <= frame_h self).
  { rewrite <- (mul_div_cancel (frame_h self) ih Hph). now apply Qmult_le_l. }
  rewrite half in Hx, Hy.
  repeat split; try assumption; try (rewrite half; assumption); try lra.
  destruct Hor as [E | E]; [left | right]; rewrite E; now apply mul_div_cancel.
Qed.

Lemma fit_image_contain_inside_frame_witness :
  exists item',
    image_item (fit_image_contain scenario_fit) = Some item' /\
    scaled_w item' <= frame_w scenario_fit /\
    scaled_h item' <= frame_h scenario_fit.
Proof.
  image_of scenario_fit E.
  assert (L : loaded scenario_fit
                (MovableImageItem.mk (QPixmap.mk 800 600) (1080 # 600)
                   (QPointF.mk (288000 # 1200) (120000 # 1200)))).
  { split; [exact E | vm_compute; repeat split; reflexivity]. }
  destruct (fit_image_contain_inside_frame scenario_fit _ L)
    as (item' & Hi & Hw & Hh & _).
  exists item'. split; [exact Hi | split; [exact Hw | exact Hh]].
Defined.

(** X2.  Fit-contain is fit-width or fit-height, whichever asks for the
    smaller scale (fit-width on a tie), and resetting a loaded image to its
    initial placement is fit-contain. *)
Theorem fit_image_contain_is_narrower_fit :
  forall self item, loaded self item ->
    let rw := frame_w self / Py.float (QPixmap.width (MovableImageItem.pixmap item)) in
    let rh := frame_h self / Py.float (QPixmap.height (MovableImageItem.pixmap item)) in
    (rw <= rh -> fit_image_contain self = fit_image_to_width self) /\
    (rh < rw -> fit_image_contain self = fit_image_to_height self) /\
    reset_image_to_initial self = fit_image_contain self.
Proof.
  intros self item L rw rh.
  rewrite (fit_image_contain_unfold _ _ L). fold rw rh.
  pose proof L as (Hi & Hw & Hh & Hpw & Hph & _).
  split; [| split].
  - intro Hle. unfold fit_image_to_width. rewrite Hi. cbv zeta.
    destruct (truediv_pos _ _ Hw Hpw) as (q & -> & -> & _).
    unfold Py.min. destruct Qlt_le_dec; [lra | reflexivity].
  - intro Hlt. unfold fit_image_to_height. rewrite Hi. cbv zeta.
    destruct (truediv_pos _ _ Hh Hph) as (q & -> & -> & _).
    unfold Py.min. destruct Qlt_le_dec; [reflexivity | lra].
  - unfold reset_image_to_initial. rewrite Hi.
    apply (place_image_initial_is_fit _ _ L).
Qed.

Lemma fit_image_contain_is_narrower_fit_witness :
  fit_image_contain scenario_fit = fit_image_to_height scenario_fit.
Proof.
  image_of scenario_fit E.
  assert (L : loaded scenario_fit
                (MovableImageItem.mk (QPixmap.mk 800 600) (1080 # 600)
                   (QPointF.mk (288000 # 1200) (120000 # 1200)))).
  { split; [exact E | vm_compute; repeat split; reflexivity]. }
  refine (proj1 (proj2 (fit_image_contain_is_narrower_fit scenario_fit _ L)) _).
  vm_compute. reflexivity.
Defined.

(** ** Align commands *)

(** A command that sets a position and clamps: the image ends at the clamp
    of that position. *)
Lemma set_pos_clamp_placed (self : MainWindow) (item : MovableImageItem.t)
    (p : QPointF.t) (P : Q -> Q -> Prop) :
  image_item self = Some item ->
  P (Py.min (frame_w self - frame_w self * 0.25)
            (Py.max (- scaled_w item + frame_w self * 0.25) (QPointF.x p)))
    (Py.min (frame_h self - frame_h self * 0.25)
            (Py.max (- scaled_h item + frame_h self * 0.25) (QPointF.y p))) ->
  placed_at (_clamp_image_pos (set_image_item self (Some (MovableImageItem.setPos item p)))) P.
Proof.
  intros Hi HP. erewrite clamp_image_pos_unfold by reflexivity.
  eexists. split; [reflexivity |]. exact HP.
Qed.

(** X3.  An edge alignment reaches the edge exactly when the scaled image is
    at least a quarter of the frame in that direction; a smaller image is
    stopped by the clamp, a quarter of the frame minus its own size away from
    the near edge (left, top) or with its near side three quarters into the
    frame (right, bottom). *)
Theorem align_edge_reached_or_clamped :
  forall self item, loaded self item ->
    let fw := frame_w self in
    let fh := frame_h self in
    let sw := scaled_w item in
    let sh := scaled_h item in
    placed_at (align_left self) (fun x _ =>
      (fw * 0.25 <= sw -> x == 0) /\ (sw < fw * 0.25 -> x == fw * 0.25 - sw)) /\
    placed_at (align_right self) (fun x _ =>
      (fw * 0.25 <= sw -> x + sw == fw) /\ (sw < fw * 0.25 -> x == fw - fw * 0.25)) /\
    placed_at (align_top self) (fun _ y =>
      (fh * 0.25 <= sh -> y == 0) /\ (sh < fh * 0.25 -> y == fh * 0.25 - sh)) /\
    placed_at (align_bottom self) (fun _ y =>
      (fh * 0.25 <= sh -> y + sh == fh) /\ (sh < fh * 0.25 -> y == fh - fh * 0.25)).
Proof.
  intros self item L. cbv zeta.
  pose proof (scaled_w_pos _ _ L). pose proof (scaled_h_pos _ _ L).
  pose proof (frame_w_pos _ _ L). pose proof (frame_h_pos _ _ L).
  destruct L as (Hi & _).
  unfold align_left, align_right, align_top, align_bottom. rewrite Hi. cbv zeta.
  repeat split; (apply set_pos_clamp_placed; [exact Hi |]);
    cbn [QPointF.x QPointF.y fst snd _scaled_image_size];
    fold (scaled_w item) (scaled_h item) (frame_w self) (frame_h self);
    align_cases.
Qed.

Lemma align_edge_reached_or_clamped_witness :
  placed_at (align_left scenario_clamp) (fun x _ =>
    (frame_w scenario_clamp * 0.25 <= Py.float 100 * 1 -> x == 0) /\
    (Py.float 100 * 1 < frame_w scenario_clamp * 0.25 ->
     x == frame_w scenario_clamp * 0.25 - Py.float 100 * 1)).
Proof.
  refine (proj1 (align_edge_reached_or_clamped scenario_clamp
            (MovableImageItem.mk (QPixmap.mk 100 100) 1 (QPointF.mk 2000 0)) _)).
  unfold loaded; cbn. repeat split; reflexivity.
Defined.

(** X4.  On an image whose position is inside the clamp bounds, an alignment
    along one axis leaves the other coordinate as it is, and a centring puts
    the coordinate at (frame - scaled size) / 2: the clamp moves neither. *)
Theorem align_touches_one_axis :
  forall self item, loaded self item -> inside_clamp_bounds self item ->
    let x0 := QPointF.x (MovableImageItem.pos item) in
    let y0 := QPointF.y (MovableImageItem.pos item) in
    let cx := (frame_w self - scaled_w item) / 2 in
    let cy := (frame_h self - scaled_h item) / 2 in
    placed_at (align_left self) (fun _ y => y == y0) /\
    placed_at (align_right self) (fun _ y => y == y0) /\
    placed_at (align_top self) (fun x _ => x == x0) /\
    placed_at (align_bottom self) (fun x _ => x == x0) /\
    placed_at (align_center_vertical self) (fun x y => x == x0 /\ y == cy) /\
    placed_at (align_center_horizontal self) (fun x y => x == cx /\ y == y0) /\
    placed_at (align_center self) (fun x y => x == cx /\ y == cy).
Proof.
  intros self item L [Bx By]. cbv zeta.
  pose proof (scaled_w_pos _ _ L). pose proof (scaled_h_pos _ _ L).
  pose proof (frame_w_pos _ _ L). pose proof (frame_h_pos _ _ L).
  pose proof (half (frame_w self - scaled_w item)).
  pose proof (half (frame_h self - scaled_h item)).
  destruct L as (Hi & _).
  unfold align_left, align_right, align_top, align_bottom,
    align_center_vertical, align_center_horizontal, align_center.
  rewrite Hi. cbv zeta.
  repeat split; (apply set_pos_clamp_placed; [exact Hi |]);
    cbn [QPointF.x QPointF.y fst snd _scaled_image_size];
    fold (scaled_w item) (scaled_h item) (frame_w self) (frame_h self);
    align_cases.
Qed.

Lemma align_touches_one_axis_witness :
  placed_at (align_top scenario_load) (fun x _ => x == 240).
Proof.
  image_of scenario_load E.
  assert (L : loaded scenario_load
                (MovableImageItem.mk (QPixmap.mk 800 600) (1080 # 600)
                   (QPointF.mk (288000 # 1200) (0 # 1200)))).
  { split; [exact E | vm_compute; repeat split; reflexivity]. }
  destruct (proj1 (proj2 (proj2 (align_touches_one_axis scenario_load _ L
              ltac:(vm_compute; repeat split; discriminate)))))
    as (it & Hi & Hx).
  exists it. split; [exact Hi |]. rewrite Hx. vm_compute. reflexivity.
Defined.

(** ** What the commands leave alone *)

(** X5.  Without an image, nothing moves: every position or scale command,
    every key press, the clamp, the slot of [scene.changed] and [clear_image]
    return the state they were given. *)
Theorem commands_without_image_do_nothing :
  forall self, image_item self = None ->
    (forall m, mutate self m = self) /\
    (forall key shift, keyPressEvent self key shift = self) /\
    _clamp_image_pos self = self /\
    _on_scene_changed self = self /\
    _place_image_initial self = self /\
    clear_image self = self.
Proof.
  intros self H. repeat split.
  - intros [p | dx dy | zoom_in step | percent | d | | | | | | a]; cbn [mutate];
      try destruct a; cbn [align];
      unfold drag_image_to, nudge_image_pos, zoom_image, set_image_scale_percent,
        nudge_image_scale_percent, fit_image_to_width, fit_image_to_height,
        fit_image_contain, reset_image_to_initial, reset_image_scale_100,
        align_center, align_center_vertical, align_center_horizontal,
        align_top, align_bottom, align_left, align_right;
      now rewrite H.
  - intros [] shift; cbn [keyPressEvent]; try reflexivity;
      unfold nudge_image_pos; now rewrite H.
  - unfold _clamp_image_pos. now rewrite H.
  - unfold _on_scene_changed. now rewrite H.
  - unfold _place_image_initial. now rewrite H.
  - unfold clear_image. now rewrite H.
Qed.

Lemma commands_without_image_do_nothing_witness :
  mutate (MainWindow_init [] []) FitContain = MainWindow_init [] [].
Proof.
  apply (proj1 (commands_without_image_do_nothing (MainWindow_init [] []) eq_refl)).
Defined.

Lemma clamp_set_item (self : MainWindow) (item : MovableImageItem.t) :
  exists q,
    _clamp_image_pos (set_image_item self (Some item))
    = set_image_item self (Some (MovableImageItem.setPos item q)).
Proof.
  erewrite clamp_image_pos_unfold by reflexivity. eexists. reflexivity.
Qed.

(** Every command either returns its state or clamps it with a new item of
    the same pixmap (and, for the commands that only move, the same scale). *)
Lemma mutate_cases (self : MainWindow) (item : MovableImageItem.t) (m : Mutation) :
  image_item self = Some item ->
  mutate self m = self \/
  exists item',
    mutate self m = _clamp_image_pos (set_image_item self (Some item')) /\
    MovableImageItem.pixmap item' = MovableImageItem.pixmap item /\
    (moves_only m = true -> MovableImageItem.scale item' = MovableImageItem.scale item).
Proof.
  intro Hi.
  destruct m as [p | dx dy | zoom_in step | percent | d | | | | | | a];
    cbn [mutate moves_only].
  - right. unfold drag_image_to. rewrite Hi.
    change (_on_scene_changed ?s) with (_clamp_image_pos s).
    eexists. repeat split.
  - right. unfold nudge_image_pos. rewrite Hi. cbv zeta. eexists. repeat split.
  - unfold zoom_image. rewrite Hi. cbv zeta.
    destruct Qlt_le_dec; [now left | right].
    eexists. split; [reflexivity | split; [reflexivity | discriminate]].
  - right. unfold set_image_scale_percent. rewrite Hi. cbv zeta.
    eexists. split; [reflexivity | split; [reflexivity | discriminate]].
  - right. unfold nudge_image_scale_percent, set_image_scale_percent.
    rewrite Hi. cbv zeta.
    eexists. split; [reflexivity | split; [reflexivity | discriminate]].
  - unfold fit_image_to_width, _apply_image_scale_and_center. rewrite Hi. cbv zeta.
    destruct Py.truediv; [right | now left].
    eexists. split; [reflexivity | split; [reflexivity | discriminate]].
  - unfold fit_image_to_height, _apply_image_scale_and_center. rewrite Hi. cbv zeta.
    destruct Py.truediv; [right | now left].
    eexists. split; [reflexivity | split; [reflexivity | discriminate]].
  - unfold fit_image_contain, _apply_image_scale_and_center. rewrite Hi. cbv zeta.
    destruct Py.truediv; [| now left]. destruct Py.truediv; [right | now left].
    eexists. split; [reflexivity | split; [reflexivity | discriminate]].
  - unfold reset_image_to_initial, _place_image_initial. rewrite Hi. cbv zeta.
    destruct QPixmap.isNull; [now left |].
    destruct Py.truediv; [| now left]. destruct Py.truediv; [right | now left].
    eexists. split; [reflexivity | split; [reflexivity | discriminate]].
  - right. unfold reset_image_scale_100. rewrite Hi.
    eexists. split; [reflexivity | split; [reflexivity | discriminate]].
  - right. destruct a; cbn [align];
      unfold align_center, align_center_vertical, align_center_horizontal,
        align_top, align_bottom, align_left, align_right;
      rewrite Hi; cbv zeta; (eexists; repeat split).
Qed.

(** X6.  A position or scale command touches the image item only: the frame,
    the background colour, the image path and both recent lists stay as they
    are, an image stays present with its pixmap, and the commands that only
    move the image (drag, nudge, align) keep its scale. *)
Theorem mutate_touches_image_item_only :
  forall self item m, image_item self = Some item ->
    same_surroundings (mutate self m) self /\
    exists item',
      image_item (mutate self m) = Some item' /\
      MovableImageItem.pixmap item' = MovableImageItem.pixmap item /\
      (moves_only m = true -> MovableImageItem.scale item' = MovableImageItem.scale item).
Proof.
  intros self item m Hi.
  destruct (mutate_cases self item m Hi) as [-> | (item' & -> & Hpm & Hs)].
  - split; [repeat split |]. exists item. repeat split. exact Hi.
  - destruct (clamp_set_item self item') as (q & ->).
    split; [repeat split |].
    eexists. split; [reflexivity |]. split; [exact Hpm | exact Hs].
Qed.

Lemma mutate_touches_image_item_only_witness :
  same_surroundings (mutate scenario_clamp (Drag (QPointF.mk 5 7))) scenario_clamp.
Proof.
  apply (mutate_touches_image_item_only scenario_clamp _ (Drag (QPointF.mk 5 7)) eq_refl).
Defined.

(** ** Nudges *)

Lemma nudge_there_and_back (lo hi v d d' : Q) :
  lo <= v <= hi -> lo <= v + d <= hi -> d' == - d ->
  Py.min hi (Py.max lo (Py.min hi (Py.max lo (v + d)) + d')) == v.
Proof.
  intros Hv Hd E. unfold Py.min, Py.max. repeat destruct Qlt_le_dec; lra.
Qed.

Lemma nudge_stops_at_bound (lo hi v d : Q) :
  lo <= hi ->
  (hi <= v + d -> Py.min hi (Py.max lo (v + d)) == hi) /\
  (v + d <= lo -> Py.min hi (Py.max lo (v + d)) == lo).
Proof.
  intro H. unfold Py.min, Py.max. repeat destruct Qlt_le_dec; split; intros; lra.
Qed.

Lemma float_opp (n : Z) : Py.float (- n) == - Py.float n.
Proof. unfold Py.float. now rewrite inject_Z_opp. Qed.

(** X7.  A nudge that stays inside the clamp bounds is undone by the opposite
    nudge, so an arrow key followed by the opposite arrow key (same Shift
    state) puts the image back; a nudge that would cross a bound stops at the
    bound. *)
Theorem nudge_undone_or_stopped :
  forall self item, loaded self item -> inside_clamp_bounds self item ->
    let x0 := QPointF.x (MovableImageItem.pos item) in
    let y0 := QPointF.y (MovableImageItem.pos item) in
    let lo_x := - scaled_w item + frame_w self * 0.25 in
    let hi_x := frame_w self - frame_w self * 0.25 in
    let lo_y := - scaled_h item + frame_h self * 0.25 in
    let hi_y := frame_h self - frame_h self * 0.25 in
    (forall dx dy,
       lo_x <= x0 + Py.float dx <= hi_x -> lo_y <= y0 + Py.float dy <= hi_y ->
       placed_at (nudge_image_pos (nudge_image_pos self dx dy) (- dx) (- dy))
         (fun x y => x == x0 /\ y == y0)) /\
    (forall key shift, key <> Key_Other ->
       lo_x <= x0 + Py.float (fst (key_delta key shift)) <= hi_x ->
       lo_y <= y0 + Py.float (snd (key_delta key shift)) <= hi_y ->
       placed_at (keyPressEvent (keyPressEvent self key shift) (opposite_key key) shift)
         (fun x y => x == x0 /\ y == y0)) /\
    (forall dx dy,
       placed_at (nudge_image_pos self dx dy) (fun x y =>
         (hi_x <= x0 + Py.float dx -> x == hi_x) /\
         (x0 + Py.float dx <= lo_x -> x == lo_x) /\
         (hi_y <= y0 + Py.float dy -> y == hi_y) /\
         (y0 + Py.float dy <= lo_y -> y == lo_y))).
Proof.
  intros self item L [Bx By]. cbv zeta.
  pose proof (scaled_w_pos _ _ L). pose proof (scaled_h_pos _ _ L).
  pose proof (frame_w_pos _ _ L). pose proof (frame_h_pos _ _ L).
  destruct L as (Hi & _).
  assert (back : forall dx dy,
    - scaled_w item + frame_w self * 0.25
      <= QPointF.x (MovableImageItem.pos item) + Py.float dx
      <= frame_w self - frame_w self * 0.25 ->
    - scaled_h item + frame_h self * 0.25
      <= QPointF.y (MovableImageItem.pos item) + Py.float dy
      <= frame_h self - frame_h self * 0.25 ->
    placed_at (nudge_image_pos (nudge_image_pos self dx dy) (- dx) (- dy))
      (fun x y => x == QPointF.x (MovableImageItem.pos item) /\
                  y == QPointF.y (MovableImageItem.pos item))).
  { intros dx dy Hx Hy.
    unfold nudge_image_pos at 2. rewrite Hi. cbv zeta.
    erewrite clamp_image_pos_unfold by reflexivity.
    unfold nudge_image_pos. cbn [image_item set_image_item]. cbv zeta.
    apply set_pos_clamp_placed; [reflexivity |].
    unfold frame_w, frame_h, scaled_w, scaled_h.
    cbn [output_size set_image_item QPointF.x QPointF.y MovableImageItem.pos
         MovableImageItem.setPos MovableImageItem.pixmap MovableImageItem.scale].
    fold (frame_w self) (frame_h self) (scaled_w item) (scaled_h item).
    split; apply nudge_there_and_back; try assumption; apply float_opp. }
  split; [exact back | split].
  - intros key shift Hk Hx Hy.
    destruct key; try contradiction; destruct shift;
      exact (back _ _ Hx Hy).
  - intros dx dy. unfold nudge_image_pos. rewrite Hi. cbv zeta.
    apply set_pos_clamp_placed; [exact Hi |]. cbn [QPointF.x QPointF.y].
    fold (frame_w self) (frame_h self).
    assert (Lx : - scaled_w item + frame_w self * 0.25
                 <= frame_w self - frame_w self * 0.25) by lra.
    assert (Ly : - scaled_h item + frame_h self * 0.25
                 <= frame_h self - frame_h self * 0.25) by lra.
    split; [| split; [| split]].
    + apply (proj1 (nudge_stops_at_bound _ _ _ _ Lx)).
    + apply (proj2 (nudge_stops_at_bound _ _ _ _ Lx)).
    + apply (proj1 (nudge_stops_at_bound _ _ _ _ Ly)).
    + apply (proj2 (nudge_stops_at_bound _ _ _ _ Ly)).
Qed.

Lemma nudge_undone_or_stopped_witness :
  placed_at (keyPressEvent (keyPressEvent scenario_load Key_Right true) Key_Left true)
    (fun x y => x == 240 /\ y == 0).
Proof.
  image_of scenario_load E.
  assert (L : loaded scenario_load
                (MovableImageItem.mk (QPixmap.mk 800 600) (1080 # 600)
                   (QPointF.mk (288000 # 1200) (0 # 1200)))).
  { split; [exact E | vm_compute; repeat split; reflexivity]. }
  destruct (proj1 (proj2 (nudge_undone_or_stopped scenario_load _ L
              ltac:(vm_compute; repeat split; discriminate)))
              Key_Right true ltac:(discriminate)
              ltac:(vm_compute; split; discriminate)
              ltac:(vm_compute; split; discriminate))
    as (it & Hi & Hx & Hy).
  exists it. split; [exact Hi |].
  split; [rewrite Hx | rewrite Hy]; vm_compute; reflexivity.
Defined.

(** ** Frame size *)

Lemma truediv_some (a b : Z) :
  (0 < b)%Z -> Py.truediv a b = Some (inject_Z a / inject_Z b).
Proof.
  intro Hb. unfold Py.truediv.
  destruct (b =? 0)%Z eqn:E; [apply Z.eqb_eq in E; lia | reflexivity].
Qed.

(** The initial placement reads the pixmap and the frame only. *)
Lemma place_image_initial_forgets (self : MainWindow) (pm : QPixmap.t)
    (s s' : Q) (p p' : QPointF.t) :
  (0 < QPixmap.width pm)%Z -> (0 < QPixmap.height pm)%Z ->
  _place_image_initial (set_image_item self (Some (MovableImageItem.mk pm s p)))
  = _place_image_initial (set_image_item self (Some (MovableImageItem.mk pm s' p'))).
Proof.
  intros Hw Hh. unfold _place_image_initial.
  cbn [image_item set_image_item MovableImageItem.pixmap output_size].
  rewrite (isNull_false _ Hw Hh), !truediv_some by assumption. cbv zeta.
  erewrite !clamp_image_pos_unfold by reflexivity.
  reflexivity.
Qed.

Lemma place_image_initial_surroundings (self : MainWindow) :
  same_surroundings (_place_image_initial self) self.
Proof.
  unfold _place_image_initial.
  destruct (image_item self) as [item |]; [| repeat split].
  cbv zeta. destruct QPixmap.isNull; [repeat split |].
  destruct Py.truediv; [| repeat split].
  destruct Py.truediv; [| repeat split].
  destruct (clamp_set_item self
              (MovableImageItem.setPos
                 (MovableImageItem.setScale item
                    (Py.min q q0))
                 (QPointF.mk
                    ((Py.float (OutputSize.w (output_size self))
                      - Py.float (QPixmap.width (MovableImageItem.pixmap item))
                        * Py.min q q0) / 2)
                    ((Py.float (OutputSize.h (output_size self))
                      - Py.float (QPixmap.height (MovableImageItem.pixmap item))
                        * Py.min q q0) / 2)))) as (c & E).
  rewrite E. repeat split.
Qed.

Lemma set_output_size_unfold (self : MainWindow) (w h : Z) :
  set_output_size self w h = _place_image_initial (with_output_size self w h).
Proof.
  unfold set_output_size, with_output_size, _place_image_initial.
  cbn [image_item]. destruct (image_item self); reflexivity.
Qed.

Lemma set_image_item_same (self : MainWindow) (item : MovableImageItem.t) :
  image_item self = Some item ->
  self = set_image_item self
           (Some (MovableImageItem.mk (MovableImageItem.pixmap item)
                    (MovableImageItem.scale item) (MovableImageItem.pos item))).
Proof.
  intro Hi. destruct self as [o b i pth rs rc]. cbn in Hi. subst i.
  destruct item. reflexivity.
Qed.

Lemma place_image_initial_clamped (self : MainWindow) (item : MovableImageItem.t) :
  image_item self = Some item ->
  (0 < QPixmap.width (MovableImageItem.pixmap item))%Z ->
  (0 < QPixmap.height (MovableImageItem.pixmap item))%Z ->
  _clamp_image_pos (_place_image_initial self) = _place_image_initial self.
Proof.
  intros Hi Hw Hh. unfold _place_image_initial.
  rewrite Hi, (isNull_false _ Hw Hh), !truediv_some by assumption. cbv zeta.
  apply clamp_twice.
Qed.

(** X8.  A new frame size places the image again as loading it does: the
    frame is replaced, the background, the path and the recent lists are
    kept, and an image that is present gets the scale
    min(w / iw, h / ih) and the centred position, whatever its scale and
    position were before; the resulting state is the one that opening the
    same file in the new frame gives.  Without an image only the frame
    changes. *)
Theorem set_output_size_places_as_on_load :
  forall self w h, (0 < w)%Z -> (0 < h)%Z ->
    output_size (set_output_size self w h) = OutputSize.mk w h /\
    bg_color (set_output_size self w h) = bg_color self /\
    _image_path (set_output_size self w h) = _image_path self /\
    _recent_sizes (set_output_size self w h) = _recent_sizes self /\
    _recent_bg_colors (set_output_size self w h) = _recent_bg_colors self /\
    (image_item self = None ->
       set_output_size self w h = with_output_size self w h) /\
    (forall item, image_item self = Some item ->
       (0 < QPixmap.width (MovableImageItem.pixmap item))%Z ->
       (0 < QPixmap.height (MovableImageItem.pixmap item))%Z ->
       let iw := Py.float (QPixmap.width (MovableImageItem.pixmap item)) in
       let ih := Py.float (QPixmap.height (MovableImageItem.pixmap item)) in
       let s := Py.min (Py.float w / iw) (Py.float h / ih) in
       (forall s0 p0,
          set_output_size
            (set_image_item self
               (Some (MovableImageItem.mk (MovableImageItem.pixmap item) s0 p0))) w h
          = set_output_size self w h) /\
       (forall path, _image_path self = Some path ->
          set_output_size self w h
          = open_image_from_path (with_output_size self w h) path
              (MovableImageItem.pixmap item)) /\
       exists item',
         image_item (set_output_size self w h) = Some item' /\
         MovableImageItem.pixmap item' = MovableImageItem.pixmap item /\
         MovableImageItem.scale item' = s /\
         QPointF.x (MovableImageItem.pos item') == (Py.float w - iw * s) / 2 /\
         QPointF.y (MovableImageItem.pos item') == (Py.float h - ih * s) / 2).
Proof.
  intros self w h Hw Hh.
  destruct (place_image_initial_surroundings (with_output_size self w h))
    as (So & Sb & Sp & Ss & Sc).
  rewrite !set_output_size_unfold.
  split; [exact So |]. split; [exact Sb |]. split; [exact Sp |].
  split; [exact Ss |]. split; [exact Sc |]. split.
  - intro Hi. unfold _place_image_initial, with_output_size. cbn [image_item].
    now rewrite Hi.
  - intros item Hi Hpw Hph. cbv zeta.
    set (W := with_output_size self w h).
    assert (HW : image_item W = Some item) by exact Hi.
    pose proof (set_image_item_same W item HW) as EW.
    split; [| split].
    + intros s0 p0. rewrite set_output_size_unfold.
      change (with_output_size (set_image_item self ?i) w h)
        with (set_image_item W i).
      rewrite EW at 2. now apply place_image_initial_forgets.
    + intros path Hpath. unfold open_image_from_path.
      rewrite (isNull_false _ Hpw Hph).
      replace (mkMainWindow (output_size W) (bg_color W)
                 (Some (MovableImageItem.new (MovableImageItem.pixmap item)))
                 (Some path) (_recent_sizes W) (_recent_bg_colors W))
        with (set_image_item W
                (Some (MovableImageItem.new (MovableImageItem.pixmap item))))
        by (unfold set_image_item; f_equal; exact Hpath).
      unfold MovableImageItem.new.
      rewrite (place_image_initial_forgets W _ 1 (MovableImageItem.scale item)
                 (QPointF.mk 0 0) (MovableImageItem.pos item) Hpw Hph).
      rewrite <- EW. symmetry. now apply (place_image_initial_clamped W item).
    + rewrite EW.
      rewrite (place_image_initial_forgets W _ (MovableImageItem.scale item) 1
                 (MovableImageItem.pos item) (MovableImageItem.pos item) Hpw Hph).
      set (item1 := MovableImageItem.mk (MovableImageItem.pixmap item) 1
                      (MovableImageItem.pos item)).
      assert (L : loaded (set_image_item W (Some item1)) item1).
      { unfold loaded. cbn. repeat split; try assumption; reflexivity. }
      rewrite (place_image_initial_is_fit _ _ L).
      destruct (apply_image_scale_and_center_centred _ _ _ L
                  (fit_contain_scale_pos _ _ L)) as (p & -> & Hx & Hy).
      eexists. split; [reflexivity |]. cbn [MovableImageItem.pixmap
        MovableImageItem.scale MovableImageItem.pos item1].
      split; [reflexivity |]. split; [reflexivity |].
      split; [exact Hx | exact Hy].
Qed.

Lemma set_output_size_places_as_on_load_witness :
  exists item',
    image_item (set_output_size scenario_clamp 1080 1080) = Some item' /\
    MovableImageItem.scale item' == 10.8 /\
    QPointF.x (MovableImageItem.pos item') == 0 /\
    QPointF.y (MovableImageItem.pos item') == 0.
Proof.
  destruct (proj2 (proj2 (proj2 (proj2 (proj2 (proj2
              (set_output_size_places_as_on_load scenario_clamp 1080 1080
                 ltac:(lia) ltac:(lia)))))))
              (MovableImageItem.mk (QPixmap.mk 100 100) 1 (QPointF.mk 2000 0))
              eq_refl ltac:(cbn; lia) ltac:(cbn; lia))
    as (_ & _ & it & Hi & _ & Hs & Hx & Hy).
  exists it. split; [exact Hi |].
  split; [rewrite Hs | split; [rewrite Hx | rewrite Hy]]; vm_compute; reflexivity.
Defined.

(** ** Clearing and loading *)

Lemma clamp_surroundings (self : MainWindow) :
  same_surroundings (_clamp_image_pos self) self.
Proof. unfold _clamp_image_pos. destruct (image_item self); repeat split. Qed.

Lemma open_image_surroundings (self : MainWindow) (path : string) (pm : QPixmap.t) :
  same_surroundings_but_path (open_image_from_path self path pm) self.
Proof.
  unfold open_image_from_path. destruct QPixmap.isNull; [repeat split |].
  set (self0 := mkMainWindow _ _ _ _ _ _).
  destruct (clamp_surroundings (_place_image_initial self0)) as (Co & Cb & _ & Cs & Cc).
  destruct (place_image_initial_surroundings self0) as (Po & Pb & _ & Ps & Pc).
  unfold same_surroundings_but_path.
  rewrite Co, Cb, Cs, Cc, Po, Pb, Ps, Pc. repeat split.
Qed.

(** X9.  Clearing removes the image and its path and keeps the frame, the
    background and the recent lists; clearing twice is clearing once; the
    render that follows is the plain background canvas; and loading a file
    replaces the previous image entirely, so that loading after a clear gives
    the state that loading directly gives; a file that does not decode changes
    nothing. *)
Theorem clear_image_then_load :
  forall self,
    image_item (clear_image self) = None /\
    (image_item self <> None -> _image_path (clear_image self) = None) /\
    output_size (clear_image self) = output_size self /\
    bg_color (clear_image self) = bg_color self /\
    _recent_sizes (clear_image self) = _recent_sizes self /\
    _recent_bg_colors (clear_image self) = _recent_bg_colors self /\
    clear_image (clear_image self) = clear_image self /\
    (forall load convert resample paste,
       _render_output_pil load convert resample paste (clear_image self)
       = PIL.new PIL.RGBA
           (OutputSize.w (output_size self), OutputSize.h (output_size self))
           [QColor.red (bg_color self); QColor.green (bg_color self);
            QColor.blue (bg_color self); 255%Z]) /\
    (forall path pm, QPixmap.isNull pm = false ->
       open_image_from_path (clear_image self) path pm
       = open_image_from_path self path pm /\
       forall path' pm', QPixmap.isNull pm' = false ->
         open_image_from_path (open_image_from_path self path' pm') path pm
         = open_image_from_path self path pm) /\
    (forall path pm, QPixmap.isNull pm = true ->
       open_image_from_path self path pm = self).
Proof.
  intro self.
  assert (S : same_surroundings_but_path (clear_image self) self).
  { unfold clear_image. destruct (image_item self); repeat split. }
  destruct S as (So & Sb & Ss & Sc).
  assert (N : image_item (clear_image self) = None).
  { unfold clear_image. destruct (image_item self) eqn:E; [reflexivity | exact E]. }
  split; [exact N |]. split.
  { unfold clear_image. destruct (image_item self); [reflexivity | congruence]. }
  split; [exact So |]. split; [exact Sb |]. split; [exact Ss |].
  split; [exact Sc |]. split.
  { unfold clear_image at 1. now rewrite N. }
  split; [| split].
  - intros load convert resample paste. unfold _render_output_pil.
    rewrite N, So, Sb. cbn [app].
    destruct PIL.new; [| reflexivity].
    now destruct (_image_path (clear_image self)).
  - intros path pm Hpm.
    assert (F : forall a b : MainWindow,
              output_size a = output_size b -> bg_color a = bg_color b ->
              _recent_sizes a = _recent_sizes b ->
              _recent_bg_colors a = _recent_bg_colors b ->
              open_image_from_path a path pm = open_image_from_path b path pm).
    { intros a b Ho Hb Hs Hc. unfold open_image_from_path.
      rewrite Hpm, Ho, Hb, Hs, Hc. reflexivity. }
    split; [now apply F |].
    intros path' pm' Hpm'.
    destruct (open_image_surroundings self path' pm') as (Ho & Hb & Hs & Hc).
    now apply F.
  - intros path pm Hpm. unfold open_image_from_path. now rewrite Hpm.
Qed.

(** ** Rendering *)

Lemma round_comp (x y : Q) : x == y -> Py.round x = Py.round y.
Proof.
  intro E. unfold Py.round. rewrite (Qfloor_comp _ _ E).
  assert (C : Qcompare (x - inject_Z (Qfloor y)) (1 # 2)
              = Qcompare (y - inject_Z (Qfloor y)) (1 # 2)).
  { apply Qcompare_comp; [rewrite E |]; reflexivity. }
  now rewrite C.
Qed.

(** X10.  The render fails in exactly two ways: when the frame has a negative
    side (the canvas cannot be made), and, for a frame that can be made, when
    an image is present with a non-empty path whose file does not load.
    The size check of the resize never makes it fail. *)
Theorem render_fails_exactly_when_load_fails :
  forall load convert resample paste self,
    ((OutputSize.w (output_size self) < 0)%Z \/ (OutputSize.h (output_size self) < 0)%Z ->
     _render_output_pil load convert resample paste self = None) /\
    ((0 <= OutputSize.w (output_size self))%Z ->
     (0 <= OutputSize.h (output_size self))%Z ->
     (_render_output_pil load convert resample paste self = None <->
      exists path item,
        _image_path self = Some path /\ image_item self = Some item /\
        path <> EmptyString /\ load path = None)).
Proof.
  intros load convert resample paste self. split.
  - intros H. unfold _render_output_pil, PIL.new.
    replace ((OutputSize.w (output_size self) <? 0)
             || (OutputSize.h (output_size self) <? 0))%Z with true; [reflexivity |].
    symmetry. apply orb_true_iff. destruct H; [left | right]; now apply Z.ltb_lt.
  - intros Hw Hh. unfold _render_output_pil.
    destruct (PIL_new_filled PIL.RGBA _ _
                ([QColor.red (bg_color self); QColor.green (bg_color self);
                  QColor.blue (bg_color self)] ++ [255%Z]) Hw Hh) as (canvas & -> & _).
    destruct (_image_path self) as [path |]; [| split; [discriminate |]].
    2: { intros (p & i & Hp & _). discriminate. }
    destruct (image_item self) as [item |]; [| split; [discriminate |]].
    2: { intros (p & i & _ & Hi & _). discriminate. }
    destruct (String.eqb path EmptyString) eqn:E.
    + apply String.eqb_eq in E. split; [discriminate |].
      intros (p & i & Hp & _ & Hne & _). injection Hp as <-. contradiction.
    + apply String.eqb_neq in E.
      destruct (load path) as [src |] eqn:Hl.
      * cbv zeta. unfold resize, render_resize_size, PIL.resize_rejects. cbn [fst snd].
        destruct (max_int_ge 1 (Py.round (Py.float (PIL.width
                    match PIL.im_mode src with
                    | PIL.RGBA => src
                    | _ => convert src PIL.RGBA
                    end) * MovableImageItem.scale item))) as [H1 _].
        destruct (max_int_ge 1 (Py.round (Py.float (PIL.height
                    match PIL.im_mode src with
                    | PIL.RGBA => src
                    | _ => convert src PIL.RGBA
                    end) * MovableImageItem.scale item))) as [H2 _].
        replace ((_ <=? 0) || (_ <=? 0))%Z with false.
        -- split; [discriminate |].
           intros (p & i & Hp & _ & _ & Hl'). injection Hp as <-. congruence.
        -- symmetry. apply orb_false_iff. split; apply Z.leb_gt; lia.
      * split; [| reflexivity]. intros _. now exists path, item.
Qed.

(** X11.  Of the image item the render reads the scale and the position
    rounded to whole pixels, and nothing else: two states with the same frame,
    background and path whose items agree on these render the same image,
    whatever their pixmaps, their exact positions and their recent lists
    are. *)
Theorem render_reads_scale_and_rounded_position :
  forall load convert resample paste a b,
    output_size a = output_size b -> bg_color a = bg_color b ->
    _image_path a = _image_path b ->
    same_export_placement (image_item a) (image_item b) ->
    _render_output_pil load convert resample paste a
    = _render_output_pil load convert resample paste b.
Proof.
  intros load convert resample paste a b Ho Hb Hp H.
  unfold _render_output_pil. rewrite Ho, Hb, Hp.
  destruct PIL.new as [canvas |]; [| reflexivity].
  destruct (_image_path b) as [path |];
    destruct (image_item a) as [ia |], (image_item b) as [ib |];
    cbn in H; try contradiction; try reflexivity.
  destruct H as (Hs & Hx & Hy).
  destruct (String.eqb path EmptyString); [reflexivity |].
  destruct (load path) as [src |]; [| reflexivity].
  cbv zeta. rewrite Hx, Hy. unfold render_resize_size.
  rewrite (round_comp _ _ (Qmult_comp _ _ (Qeq_refl _) _ _ Hs)).
  set (src' := match PIL.im_mode src with PIL.RGBA => src | _ => convert src PIL.RGBA end).
  rewrite (round_comp (Py.float (PIL.height src') * MovableImageItem.scale ia)
             (Py.float (PIL.height src') * MovableImageItem.scale ib)
             (Qmult_comp _ _ (Qeq_refl _) _ _ Hs)).
  reflexivity.
Qed.

Lemma render_reads_scale_and_rounded_position_witness :
  _render_output_pil (fun _ => Some (PIL.mkImage PIL.RGB 10 10 []))
    (fun im _ => im) (fun im _ => im) (fun canvas _ _ _ => canvas)
    (mkMainWindow (OutputSize.mk 64 64) (QColor.mk 0 0 0)
       (Some (MovableImageItem.mk (QPixmap.mk 8 8) 1 (QPointF.mk 0.2 3)))
       (Some "a.png"%string) [] [])
  = _render_output_pil (fun _ => Some (PIL.mkImage PIL.RGB 10 10 []))
      (fun im _ => im) (fun im _ => im) (fun canvas _ _ _ => canvas)
      (mkMainWindow (OutputSize.mk 64 64) (QColor.mk 0 0 0)
         (Some (MovableImageItem.mk (QPixmap.mk 9 9) (2 # 2) (QPointF.mk 0.4 2.6)))
         (Some "a.png"%string) [(1, 1)%Z] []).
Proof.
  apply render_reads_scale_and_rounded_position; try reflexivity.
  vm_compute. repeat split.
Defined.

(** ** More on the recent lists *)

Section RecentMore.

Context {A : Type} (eqb : A -> A -> bool).
Hypothesis eqb_spec : forall x y, eqb x y = true <-> x = y.

Lemma filter_all (f : A -> bool) (l : list A) :
  (forall x, In x l -> f x = true) -> filter f l = l.
Proof.
  induction l as [| y l IH]; intro H; [reflexivity |].
  cbn [filter]. rewrite (H y (or_introl eq_refl)). f_equal.
  apply IH. intros x Hx. apply H. now right.
Qed.

Lemma remember_front_cons (key : A) (l : list A) :
  remember_front eqb key l
  = key :: firstn 9 (filter (fun x => negb (eqb x key)) l).
Proof. unfold remember_front. change 10%nat with (S 9). now rewrite firstn_cons. Qed.

Lemma remember_front_twice (key : A) (l : list A) :
  remember_front eqb key (remember_front eqb key l) = remember_front eqb key l.
Proof.
  rewrite (remember_front_cons key l).
  set (m := firstn 9 (filter (fun x => negb (eqb x key)) l)).
  rewrite remember_front_cons. cbn [filter].
  replace (eqb key key) with true by (symmetry; now apply eqb_spec).
  cbn [negb]. f_equal.
  rewrite filter_all.
  - unfold m. now rewrite firstn_firstn, Nat.min_id.
  - intros x Hx. unfold m in Hx.
    apply (In_firstn 9) in Hx. apply filter_In in Hx. exact (proj2 Hx).
Qed.

Lemma remember_front_from (key x : A) (l : list A) :
  In x (remember_front eqb key l) -> x = key \/ In x l.
Proof.
  rewrite remember_front_cons. intros [<- | H]; [now left | right].
  apply (In_firstn 9) in H. apply filter_In in H. exact (proj1 H).
Qed.

Lemma remember_front_keeps (key x : A) (l : list A) :
  (length l < 10)%nat -> In x l -> In x (remember_front eqb key l).
Proof.
  intros Hlen Hx. rewrite remember_front_cons.
  destruct (eqb x key) eqn:E; [left; symmetry; now apply eqb_spec |].
  right. rewrite firstn_all2.
  - apply filter_In. split; [exact Hx | now rewrite E].
  - pose proof (filter_length_le (fun y => negb (eqb y key)) l). lia.
Qed.

End RecentMore.

Lemma string_eqb_spec (x y : string) : String.eqb x y = true <-> x = y.
Proof. apply String.eqb_eq. Qed.

(** X12.  Remembering a value a second time changes nothing; nothing enters a
    recent list but the remembered value; a list with fewer than ten entries
    loses none; and the two lists do not interfere: remembering a size and
    remembering a colour give the same state in either order. *)
Theorem remember_again_changes_nothing :
  (forall self w h,
     _remember_custom_size (_remember_custom_size self w h) w h
     = _remember_custom_size self w h) /\
  (forall self c,
     _remember_bg_color (_remember_bg_color self c) c = _remember_bg_color self c) /\
  (forall self w h c,
     _remember_bg_color (_remember_custom_size self w h) c
     = _remember_custom_size (_remember_bg_color self c) w h) /\
  (forall self w h s,
     In s (_recent_sizes (_remember_custom_size self w h)) ->
     s = (w, h) \/ In s (_recent_sizes self)) /\
  (forall self c s,
     In s (_recent_bg_colors (_remember_bg_color self c)) ->
     s = QColor.name_upper c \/ In s (_recent_bg_colors self)) /\
  (forall self w h s,
     (length (_recent_sizes self) < 10)%nat -> In s (_recent_sizes self) ->
     In s (_recent_sizes (_remember_custom_size self w h))) /\
  (forall self c s,
     (length (_recent_bg_colors self) < 10)%nat -> In s (_recent_bg_colors self) ->
     In s (_recent_bg_colors (_remember_bg_color self c))).
Proof.
  split; [| split; [| split; [| split; [| split; [| split]]]]].
  - intros self w h. unfold _remember_custom_size at 1 3.
    cbn [_remember_custom_size output_size bg_color image_item _image_path
         _recent_sizes _recent_bg_colors].
    f_equal. exact (remember_front_twice size_eqb size_eqb_spec (w, h) _).
  - intros self c. unfold _remember_bg_color at 1 3.
    cbn [_remember_bg_color output_size bg_color image_item _image_path
         _recent_sizes _recent_bg_colors].
    f_equal. exact (remember_front_twice String.eqb string_eqb_spec _ _).
  - intros self w h c. reflexivity.
  - intros self w h s. exact (remember_front_from size_eqb (w, h) s _).
  - intros self c s. exact (remember_front_from String.eqb _ s _).
  - intros self w h s. exact (remember_front_keeps size_eqb size_eqb_spec (w, h) s _).
  - intros self c s. exact (remember_front_keeps String.eqb string_eqb_spec _ s _).
Qed.

(** ** Settings and image commands *)

Lemma mutate_with_settings (self : MainWindow) (m : Mutation) (bg : QColor.t)
    (sizes : list (Z * Z)) (cols : list string) :
  mutate (with_settings self bg sizes cols) m
  = with_settings (mutate self m) bg sizes cols.
Proof.
  destruct self as [o b [item |] p rs rc];
    destruct m as [q | dx dy | zoom_in step | percent | d | | | | | | a];
    try destruct a; cbn [mutate align]; unfold with_settings; unfold_commands;
    cbn [image_item output_size bg_color _image_path _recent_sizes _recent_bg_colors
         set_image_item];
    case_guards; reflexivity.
Qed.

Lemma set_output_size_with_settings (self : MainWindow) (w h : Z) (bg : QColor.t)
    (sizes : list (Z * Z)) (cols : list string) :
  set_output_size (with_settings self bg sizes cols) w h
  = with_settings (set_output_size self w h) bg sizes cols.
Proof.
  destruct self as [o b [item |] p rs rc];
    unfold set_output_size, with_settings, _place_image_initial, _clamp_image_pos;
    cbn [image_item output_size bg_color _image_path _recent_sizes _recent_bg_colors
         set_image_item];
    case_guards; reflexivity.
Qed.

(** X13.  The position and scale commands read the frame and the image and
    nothing else: a command gives the same state whether the background colour
    is set, a size or a colour is remembered, or a recent list is cleared,
    before it or after it. *)
Theorem image_commands_ignore_settings :
  forall self m,
    (forall c, mutate (set_bg_color self c) m = set_bg_color (mutate self m) c) /\
    (forall c, mutate (pick_bg_color self c) m = pick_bg_color (mutate self m) c) /\
    (forall w h,
       mutate (_remember_custom_size self w h) m
       = _remember_custom_size (mutate self m) w h) /\
    mutate (_clear_recent_sizes self) m = _clear_recent_sizes (mutate self m) /\
    mutate (_clear_recent_bg_colors self) m = _clear_recent_bg_colors (mutate self m).
Proof.
  intros self m.
  assert (K : bg_color (mutate self m) = bg_color self /\
              _recent_sizes (mutate self m) = _recent_sizes self /\
              _recent_bg_colors (mutate self m) = _recent_bg_colors self).
  { pose proof (mutate_with_settings self m (bg_color self) (_recent_sizes self)
                  (_recent_bg_colors self)) as E.
    replace (with_settings self (bg_color self) (_recent_sizes self)
               (_recent_bg_colors self)) with self in E by now destruct self.
    rewrite E. repeat split. }
  destruct K as (Kb & Ks & Kc).
  split; [| split; [| split; [| split]]].
  - intro c. unfold set_bg_color. rewrite Ks, Kc.
    apply (mutate_with_settings self m c).
  - intro c. unfold pick_bg_color, _remember_bg_color, set_bg_color.
    cbn [output_size bg_color image_item _image_path _recent_sizes _recent_bg_colors].
    rewrite Ks, Kc. apply (mutate_with_settings self m c).
  - intros w h. unfold _remember_custom_size. rewrite Kb, Ks, Kc.
    apply (mutate_with_settings self m).
  - unfold _clear_recent_sizes. rewrite Kb, Kc. apply (mutate_with_settings self m).
  - unfold _clear_recent_bg_colors. rewrite Kb, Ks. apply (mutate_with_settings self m).
Qed.

(** X14.  The frame size and the background colour are independent settings:
    choosing a custom size and picking a colour give the same state in either
    order, a colour change leaves the frame and the image as they are, and
    the custom-size command is the frame change followed by remembering the
    size, which reaches the front of the recent sizes. *)
Theorem size_and_colour_choices_commute :
  forall self w h c,
    pick_bg_color (set_custom_size self w h) c
    = set_custom_size (pick_bg_color self c) w h /\
    set_bg_color (set_output_size self w h) c
    = set_output_size (set_bg_color self c) w h /\
    output_size (pick_bg_color self c) = output_size self /\
    image_item (pick_bg_color self c) = image_item self /\
    bg_color (pick_bg_color self c) = c /\
    bg_color (set_custom_size self w h) = bg_color self /\
    hd_error (_recent_sizes (set_custom_size self w h)) = Some (w, h) /\
    hd_error (_recent_bg_colors (pick_bg_color self c)) = Some (QColor.name_upper c).
Proof.
  intros self w h c.
  pose proof (set_output_size_with_settings self w h) as E.
  assert (K : bg_color (set_output_size self w h) = bg_color self /\
              _recent_sizes (set_output_size self w h) = _recent_sizes self /\
              _recent_bg_colors (set_output_size self w h) = _recent_bg_colors self).
  { specialize (E (bg_color self) (_recent_sizes self) (_recent_bg_colors self)).
    replace (with_settings self (bg_color self) (_recent_sizes self)
               (_recent_bg_colors self)) with self in E by now destruct self.
    rewrite E. repeat split. }
  destruct K as (Kb & Ks & Kc).
  split; [| split; [| repeat split]].
  - unfold pick_bg_color, set_custom_size, _remember_bg_color, _remember_custom_size,
      set_bg_color.
    cbn [output_size bg_color image_item _image_path _recent_sizes _recent_bg_colors].
    rewrite Ks, Kc.
    change (mkMainWindow (output_size self) c (image_item self) (_image_path self)
              (_recent_sizes self)
              (firstn 10 (QColor.name_upper c
                 :: filter (fun x => negb (String.eqb x (QColor.name_upper c)))
                      (_recent_bg_colors self))))
      with (with_settings self c (_recent_sizes self)
              (firstn 10 (QColor.name_upper c
                 :: filter (fun x => negb (String.eqb x (QColor.name_upper c)))
                      (_recent_bg_colors self)))).
    rewrite E. reflexivity.
  - unfold set_bg_color at 2.
    change (mkMainWindow (output_size self) c (image_item self) (_image_path self)
              (_recent_sizes self) (_recent_bg_colors self))
      with (with_settings self c (_recent_sizes self) (_recent_bg_colors self)).
    rewrite E. unfold set_bg_color, with_settings. now rewrite Ks, Kc.
  - unfold set_custom_size, _remember_custom_size. cbn [bg_color]. exact Kb.
Qed.

(** ** Frame colour *)






(** ** View zoom *)

Lemma set_view_zoom_within_fit (fitted : Q) (v : ViewZoom) (z : Q) :
  0.1 <= fitted -> max_view_zoom v = Some fitted ->
  view_within_fit fitted (set_view_zoom v z).
Proof.
  intros Hf Hm. unfold view_within_fit, set_view_zoom, _update_scroll_lock.
  cbn [max_view_zoom view_zoom _scroll_locked]. rewrite Hm.
  cbn [max_view_zoom view_zoom _scroll_locked].
  split; [reflexivity |].
  assert (B : 0.1 <= Py.max 0.1 (Py.min fitted z) <= fitted).
  { unfold Py.max, Py.min. repeat destruct Qlt_le_dec; lra. }
  split; [exact B |].
  unfold Py.abs.
  destruct (Qlt_le_dec (Qabs (Py.max 0.1 (Py.min fitted z) - fitted)) 1.0) as [L | L];
    revert L; apply Qabs_case; intros; split; intros; try discriminate;
    try reflexivity; lra.
Qed.

Lemma view_request_within_fit (fitted : Q) (reqs : list ViewRequest) (v : ViewZoom) :
  0.1 <= fitted -> view_within_fit fitted v ->
  view_within_fit fitted (fold_left view_request reqs v).
Proof.
  intro Hf. revert v. induction reqs as [| r reqs IH]; intros v I; [exact I |].
  cbn [fold_left]. apply IH. destruct I as (Hm & _).
  destruct r as [z | zoom_in]; cbn [view_request]; unfold nudge_view_zoom;
    now apply set_view_zoom_within_fit.
Qed.

(** X16.  Before any fit the view zoom is kept in [0.1, 4.0] and scrolling is
    never locked.  After a fit with a factor of at least 0.1, whatever zoom
    requests follow, the fitted factor stays the upper limit, the zoom stays
    in [0.1, fitted], scrolling is locked exactly while the zoom is less than
    1 below the fitted factor (always, when the fitted factor is below 1.1),
    and zooming in at the fit changes nothing. *)
Theorem view_zoom_stays_within_fit :
  forall v,
    (forall z, max_view_zoom v = None ->
       0.1 <= view_zoom (set_view_zoom v z) <= 4.0 /\
       _scroll_locked (set_view_zoom v z) = false /\
       max_view_zoom (set_view_zoom v z) = None) /\
    (forall fitted reqs, 0.1 <= fitted ->
       let v' := fold_left view_request reqs (fit_canvas_to_window v fitted) in
       view_within_fit fitted v' /\
       (fitted < 1.1 -> _scroll_locked v' = true) /\
       view_zoom (nudge_view_zoom (fit_canvas_to_window v fitted) true) == fitted /\
       _scroll_locked (nudge_view_zoom (fit_canvas_to_window v fitted) true) = true).
Proof.
  intro v. split.
  - intros z Hm. unfold set_view_zoom, _update_scroll_lock.
    cbn [max_view_zoom view_zoom _scroll_locked]. rewrite Hm.
    cbn [max_view_zoom view_zoom _scroll_locked].
    split; [| split; reflexivity].
    unfold Py.max, Py.min. repeat destruct Qlt_le_dec; lra.
  - intros fitted reqs Hf. cbv zeta.
    assert (I0 : view_within_fit fitted (fit_canvas_to_window v fitted)).
    { unfold view_within_fit, fit_canvas_to_window.
      cbn [max_view_zoom view_zoom _scroll_locked].
      split; [reflexivity |]. split; [lra |]. split; intros; [lra | reflexivity]. }
    pose proof (view_request_within_fit fitted reqs _ Hf I0) as I.
    split; [exact I |]. split.
    + intro Hlt. destruct I as (_ & B & Lk). apply Lk. lra.
    + pose proof (set_view_zoom_within_fit fitted (fit_canvas_to_window v fitted)
                    (fitted * 1.10) Hf eq_refl) as (_ & B & Lk).
      assert (E : view_zoom (nudge_view_zoom (fit_canvas_to_window v fitted) true)
                  == fitted).
      { unfold nudge_view_zoom, set_view_zoom, _update_scroll_lock, fit_canvas_to_window.
        cbn [max_view_zoom view_zoom _scroll_locked].
        unfold Py.max, Py.min. repeat destruct Qlt_le_dec; lra. }
      split; [exact E |].
      unfold nudge_view_zoom. cbn [fit_canvas_to_window view_zoom].
      apply Lk.
      unfold nudge_view_zoom in E. cbn [fit_canvas_to_window view_zoom] in E.
      rewrite E. lra.
Qed.

Lemma view_zoom_stays_within_fit_witness :
  _scroll_locked
    (fold_left view_request [NudgeViewZoom false; SetViewZoom 0.3; NudgeViewZoom true]
       (fit_canvas_to_window (mkViewZoom 1 None false) 0.5)) = true.
Proof.
  refine (proj1 (proj2
            (proj2 (view_zoom_stays_within_fit (mkViewZoom 1 None false)) 0.5
               [NudgeViewZoom false; SetViewZoom 0.3; NudgeViewZoom true] _)) _).
  - vm_compute. discriminate.
  - vm_compute. reflexivity.
Defined.

(** ** Preview dialog *)





(** ** Dragging with Shift *)

Section ShiftDrag.

Variable super_mouseMoveEvent : MovableImageItem.t -> QPointF.t -> MovableImageItem.t.

Lemma last_cons {A : Type} (l : list A) (p d : A) : last (p :: l) d = last l p.
Proof.
  revert p d. induction l as [| q l IH]; intros p d; [reflexivity |].
  change (last (p :: q :: l) d) with (last (q :: l) d). now rewrite !IH.
Qed.

Lemma shift_move_dragging (press origin : QPointF.t) (axis : Axis)
    (it : MovableImageItem.t) (d : DragItem) (pointer p : QPointF.t) :
  dragging press origin axis it d pointer ->
  dragging press origin axis it (shift_move super_mouseMoveEvent d p) p.
Proof.
  intros (Hs & Ho & Ha & Hpm & Hsc & _).
  unfold shift_move, mouseMoveEvent, dragging. rewrite Hs, Ho, Ha. cbn [andb].
  cbv zeta. cbn [_press_scene_pos _press_item_pos _lock_axis drag_item
                 MovableImageItem.setPos MovableImageItem.pixmap
                 MovableImageItem.scale MovableImageItem.pos].
  repeat split; assumption.
Qed.

Lemma shift_moves_dragging (press origin : QPointF.t) (axis : Axis)
    (it : MovableImageItem.t) (moves : list QPointF.t) (d : DragItem)
    (pointer : QPointF.t) :
  dragging press origin axis it d pointer ->
  dragging press origin axis it
    (fold_left (shift_move super_mouseMoveEvent) moves d) (last moves pointer).
Proof.
  revert d pointer. induction moves as [| p moves IH]; intros d pointer J; [exact J |].
  rewrite last_cons. cbn [fold_left]. apply IH.
  now apply (shift_move_dragging press origin axis it d pointer).
Qed.

(** X18.  A drag with Shift held moves the image along one axis only: the
    first move after the press picks the axis (horizontal unless the pointer
    went further vertically), every later move keeps it, and the image is at
    its position at the press plus the pointer's displacement along that
    axis, whatever path the pointer took; neither the pixmap nor the scale
    changes, the base class is not consulted, and the release forgets the
    press and the axis without moving the image. *)
Theorem shift_drag_keeps_one_axis :
  forall d press first moves,
    let d' := fold_left (shift_move super_mouseMoveEvent) (first :: moves)
                (mousePressEvent d true press) in
    let origin := MovableImageItem.pos (drag_item d) in
    let pointer := last moves first in
    _lock_axis d' = Some (first_axis press first) /\
    MovableImageItem.pixmap (drag_item d') = MovableImageItem.pixmap (drag_item d) /\
    MovableImageItem.scale (drag_item d') = MovableImageItem.scale (drag_item d) /\
    match first_axis press first with
    | AxisX =>
        QPointF.x (MovableImageItem.pos (drag_item d'))
        == QPointF.x origin + (QPointF.x pointer - QPointF.x press) /\
        QPointF.y (MovableImageItem.pos (drag_item d')) == QPointF.y origin
    | AxisY =>
        QPointF.x (MovableImageItem.pos (drag_item d')) == QPointF.x origin /\
        QPointF.y (MovableImageItem.pos (drag_item d'))
        == QPointF.y origin + (QPointF.y pointer - QPointF.y press)
    end /\
    mouseReleaseEvent d' = mkDragItem (drag_item d') None None None.
Proof.
  intros d press first moves. cbv zeta.
  assert (J1 : dragging press (MovableImageItem.pos (drag_item d))
                 (first_axis press first) (drag_item d)
                 (shift_move super_mouseMoveEvent (mousePressEvent d true press) first) first).
  { unfold shift_move, mouseMoveEvent, mousePressEvent, dragging, first_axis.
    cbn [_press_scene_pos _press_item_pos _lock_axis drag_item andb].
    cbv zeta.
    destruct (Qle_bool _ _);
      cbn [_press_scene_pos _press_item_pos _lock_axis drag_item
           MovableImageItem.setPos MovableImageItem.pixmap
           MovableImageItem.scale MovableImageItem.pos along];
      repeat split. }
  pose proof (shift_moves_dragging _ _ _ _ moves _ _ J1)
    as (_ & _ & Ha & Hpm & Hsc & Hpos).
  cbn [fold_left].
  fold (shift_move super_mouseMoveEvent (mousePressEvent d true press) first).
  split; [exact Ha |]. split; [exact Hpm |]. split; [exact Hsc |]. split.
  - rewrite Hpos.
    destruct (first_axis press first);
      cbn [along QPointF.add QPointF.sub QPointF.x QPointF.y]; split; lra.
  - reflexivity.
Qed.

End ShiftDrag.

(** ** Wheel zoom, there and back *)

Lemma zoom_base_cases (step : string) :
  zoom_base step = 1.01 \/ zoom_base step = 1.03 \/ zoom_base step = 1.15.
Proof.
  unfold zoom_base. destruct String.eqb; [now left |].
  destruct String.eqb; [right; now left | right; now right].
Qed.

Lemma mul_inv_base (t b : Q) : 0 < b -> t * (1 / b) * b == t.
Proof. intro H. field. lra. Qed.

(** One wheel step whose target is in range and far enough from the scale. *)
Lemma zoom_image_scale (self : MainWindow) (item : MovableImageItem.t)
    (zoom_in : bool) (step : string) (t : Q) :
  image_item self = Some item ->
  0.02 <= t <= 50.0 ->
  t == MovableImageItem.scale item * zoom_factor zoom_in step ->
  zoom_noop_threshold <= Qabs (t - MovableImageItem.scale item) ->
  exists item', image_item (zoom_image self zoom_in step) = Some item' /\
    MovableImageItem.scale item' == t.
Proof.
  intros Hi Ht Et Hfar.
  assert (E : zoom_new_scale zoom_in step (MovableImageItem.scale item) == t).
  { unfold zoom_new_scale, Py.max, Py.min. repeat destruct Qlt_le_dec; lra. }
  destruct (proj2 (zoom_image_unfold self item zoom_in step Hi)) as (item' & Hi' & Hs').
  - rewrite E. exact Hfar.
  - exists item'. split; [exact Hi' |]. now rewrite Hs'.
Qed.

(** X19.  Wheel zoom steps undo each other: from a scale s in range, a step
    in followed by a step out (with the same step size) returns the scale to
    s when s times the step factor does not exceed 50, and a step out
    followed by a step in does when s divided by the factor is at least 0.02.
    At the upper limit 50 a step in, and at the lower limit 0.02 a step out,
    leaves the whole state as it is. *)
Theorem wheel_zoom_in_and_out :
  forall self item step, image_item self = Some item ->
    let s := MovableImageItem.scale item in
    let base := zoom_base step in
    (0.02 <= s -> s * base <= 50.0 ->
     exists item',
       image_item (zoom_image (zoom_image self true step) false step) = Some item' /\
       MovableImageItem.scale item' == s) /\
    (s <= 50.0 -> 0.02 <= s / base ->
     exists item',
       image_item (zoom_image (zoom_image self false step) true step) = Some item' /\
       MovableImageItem.scale item' == s) /\
    (s == 50.0 -> zoom_image self true step = self) /\
    (s == 0.02 -> zoom_image self false step = self).
Proof.
  intros self item step Hi. cbv zeta.
  assert (Hb : 1.01 <= zoom_base step <= 1.15).
  { destruct (zoom_base_cases step) as [-> | [-> | ->]]; lra. }
  assert (Hb1 : zoom_base step = 1.01 \/ zoom_base step = 1.03 \/ zoom_base step = 1.15)
    by apply zoom_base_cases.
  split; [| split; [| split]].
  - intros Hlo Hhi.
    destruct (zoom_image_scale self item true step
                (MovableImageItem.scale item * zoom_base step) Hi)
      as (item1 & Hi1 & Hs1).
    + destruct Hb1 as [B | [B | B]]; rewrite B in *; lra.
    + reflexivity.
    + unfold zoom_noop_threshold. apply Qabs_case; intros;
        destruct Hb1 as [B | [B | B]]; rewrite B in *; lra.
    + apply (zoom_image_scale _ item1 false step (MovableImageItem.scale item) Hi1).
      * destruct Hb1 as [B | [B | B]]; rewrite B in *; lra.
      * rewrite Hs1. unfold zoom_factor. field. lra.
      * rewrite Hs1. unfold zoom_noop_threshold. apply Qabs_case; intros;
          destruct Hb1 as [B | [B | B]]; rewrite B in *; lra.
  - intros Hhi Hlo.
    set (t1 := MovableImageItem.scale item / zoom_base step) in *.
    assert (Es : MovableImageItem.scale item == t1 * zoom_base step).
    { unfold t1. field. lra. }
    destruct (zoom_image_scale self item false step t1 Hi) as (item1 & Hi1 & Hs1).
    + destruct Hb1 as [B | [B | B]]; rewrite B in *; lra.
    + unfold t1, zoom_factor. field. lra.
    + rewrite Es. unfold zoom_noop_threshold. apply Qabs_case; intros;
        destruct Hb1 as [B | [B | B]]; rewrite B in *; lra.
    + apply (zoom_image_scale _ item1 true step (MovableImageItem.scale item) Hi1).
      * destruct Hb1 as [B | [B | B]]; rewrite B in *; lra.
      * rewrite Hs1. exact Es.
      * rewrite Hs1, Es. unfold zoom_noop_threshold. apply Qabs_case; intros;
          destruct Hb1 as [B | [B | B]]; rewrite B in *; lra.
  - intro E. apply (proj1 (zoom_image_unfold self item true step Hi)).
    unfold zoom_new_scale, zoom_factor, zoom_noop_threshold.
    apply Qabs_case; intros; revert H; unfold Py.max, Py.min;
      repeat destruct Qlt_le_dec; intros;
      destruct Hb1 as [B | [B | B]]; rewrite B in *; lra.
  - intro E. apply (proj1 (zoom_image_unfold self item false step Hi)).
    assert (F : MovableImageItem.scale item * (1 / zoom_base step) * zoom_base step
                == MovableImageItem.scale item) by (apply mul_inv_base; lra).
    unfold zoom_new_scale, zoom_factor, zoom_noop_threshold.
    set (u := MovableImageItem.scale item * (1 / zoom_base step)) in *.
    apply Qabs_case; intros; revert H; unfold Py.max, Py.min;
      repeat destruct Qlt_le_dec; intros;
      destruct Hb1 as [B | [B | B]]; rewrite B in *; lra.
Qed.

Lemma wheel_zoom_in_and_out_witness :
  exists item',
    image_item (zoom_image (zoom_image scenario_load true "fine") false "fine")
    = Some item' /\
    MovableImageItem.scale item' == 1.8.
Proof.
  image_of scenario_load E.
  destruct (proj1 (wheel_zoom_in_and_out scenario_load _ "fine" E)
              ltac:(vm_compute; discriminate) ltac:(vm_compute; discriminate))
    as (it & Hit & Hs).
  exists it. split; [exact Hit |]. rewrite Hs. vm_compute. reflexivity.
Defined.

(** ** Scale buttons *)

Lemma percent_in_range (p : Q) :
  (1.0 <= p <= 5000.0 -> Py.max 1.0 (Py.min 5000.0 p) == p) /\
  (5000.0 <= p -> Py.max 1.0 (Py.min 5000.0 p) == 5000.0) /\
  (p <= 1.0 -> Py.max 1.0 (Py.min 5000.0 p) == 1.0).
Proof. unfold Py.max, Py.min. repeat destruct Qlt_le_dec; repeat split; intros; lra. Qed.

Lemma nudge_image_scale_percent_scale (self : MainWindow) (item : MovableImageItem.t)
    (d : Q) :
  image_item self = Some item ->
  exists item',
    image_item (nudge_image_scale_percent self d) = Some item' /\
    MovableImageItem.scale item'
    = Py.max 1.0 (Py.min 5000.0 (MovableImageItem.scale item * 100.0 + d)) / 100.0.
Proof.
  intro Hi. unfold nudge_image_scale_percent, set_image_scale_percent.
  rewrite Hi. cbv zeta.
  erewrite clamp_image_pos_unfold by reflexivity.
  eexists. split; reflexivity.
Qed.

(** X20.  The two scale buttons change the percentage by one step and stop at
    1% and 5000%: a step of d from the percentage p gives p + d brought back
    into [1, 5000]; and a step followed by the opposite step returns the scale
    when both p and p + d are inside that range. *)
Theorem scale_buttons_step_and_return :
  forall self item d, image_item self = Some item ->
    let s := MovableImageItem.scale item in
    (exists item',
       image_item (nudge_image_scale_percent self d) = Some item' /\
       MovableImageItem.scale item' * 100.0 == clamp (s * 100.0 + d) 1.0 5000.0) /\
    (1.0 <= s * 100.0 <= 5000.0 -> 1.0 <= s * 100.0 + d <= 5000.0 ->
     exists item',
       image_item (nudge_image_scale_percent (nudge_image_scale_percent self d) (- d))
       = Some item' /\
       MovableImageItem.scale item' == s).
Proof.
  intros self item d Hi. cbv zeta.
  destruct (nudge_image_scale_percent_scale self item d Hi) as (item1 & Hi1 & Hs1).
  split.
  - exists item1. split; [exact Hi1 |]. rewrite Hs1.
    rewrite (clamp_code_is_clamp_outer_max _ 1.0 5000.0) by lra.
    field.
  - intros Hp Hd.
    destruct (nudge_image_scale_percent_scale _ item1 (- d) Hi1) as (item2 & Hi2 & Hs2).
    exists item2. split; [exact Hi2 |]. rewrite Hs2, Hs1.
    assert (E1 : Py.max 1.0 (Py.min 5000.0 (MovableImageItem.scale item * 100.0 + d))
                 == MovableImageItem.scale item * 100.0 + d).
    { apply percent_in_range. lra. }
    assert (E2 : Py.max 1.0 (Py.min 5000.0 (MovableImageItem.scale item * 100.0 + d))
                   / 100.0 * 100.0 + - d
                 == MovableImageItem.scale item * 100.0).
    { rewrite E1. field. }
    assert (E3 : Py.max 1.0
                   (Py.min 5000.0
                      (Py.max 1.0 (Py.min 5000.0 (MovableImageItem.scale item * 100.0 + d))
                       / 100.0 * 100.0 + - d))
                 == MovableImageItem.scale item * 100.0).
    { rewrite <- E2 at 2. apply percent_in_range. rewrite E2. lra. }
    rewrite E3. field.
Qed.

Lemma scale_buttons_step_and_return_witness :
  exists item',
    image_item (nudge_image_scale_percent (nudge_image_scale_percent scenario_load 1) (- 1))
    = Some item' /\
    MovableImageItem.scale item' == 1.8.
Proof.
  image_of scenario_load E.
  destruct (proj2 (scale_buttons_step_and_return scenario_load _ 1 E)
              ltac:(vm_compute; split; discriminate)
              ltac:(vm_compute; split; discriminate))
    as (it & Hit & Hs).
  exists it. split; [exact Hit |]. rewrite Hs. vm_compute. reflexivity.
Defined.

(** ** Scene rectangle and guide lines *)

Lemma div_2_0 (a : Q) : a / 2.0 == a * (1 # 2).
Proof. field. Qed.

(** X21.  The two centre guides are a vertical and a horizontal line that
    cross at the centre of the frame, the point about which the image is
    centred and rescaled, and overhang the frame by 40 on each side; the
    taskbar guide spans the width of the frame 48 above its bottom edge.  The
    scene rectangle is the frame with a margin of 300 on every side, so it has
    the same centre and holds all end points of the guides when the frame is
    at least 48 high.  After fit-contain or align-centre the centre of a
    loaded image lies on the crossing of the guides. *)
Theorem guides_cross_at_frame_centre :
  forall self,
    let g := _update_guides_geometry self in
    let cross := QPointF.mk (x1 (_guide_center_v g)) (y1 (_guide_center_h g)) in
    x2 (_guide_center_v g) = x1 (_guide_center_v g) /\
    y2 (_guide_center_h g) = y1 (_guide_center_h g) /\
    QPointF.eq cross (frame_center self) /\
    QPointF.eq (QRectF.center (_apply_scene_rect self)) (frame_center self) /\
    (y1 (_guide_center_v g) == - (40) /\ y2 (_guide_center_v g) == frame_h self + 40 /\
     x1 (_guide_center_h g) == - (40) /\ x2 (_guide_center_h g) == frame_w self + 40) /\
    (x1 (_guide_taskbar g) == 0 /\ x2 (_guide_taskbar g) == frame_w self /\
     y1 (_guide_taskbar g) == frame_h self - 48 /\
     y2 (_guide_taskbar g) = y1 (_guide_taskbar g)) /\
    ((0 <= OutputSize.w (output_size self))%Z ->
     (48 <= OutputSize.h (output_size self))%Z ->
     Forall (fun l => rect_contains (_apply_scene_rect self) (x1 l) (y1 l) /\
                      rect_contains (_apply_scene_rect self) (x2 l) (y2 l))
       [_guide_center_v g; _guide_center_h g; _guide_taskbar g]) /\
    (forall item, loaded self item ->
       (exists item', image_item (fit_image_contain self) = Some item' /\
          QPointF.eq (image_centre item') cross) /\
       (exists item', image_item (align_center self) = Some item' /\
          QPointF.eq (image_centre item') cross)).
Proof.
  intro self. cbv zeta.
  unfold _update_guides_geometry, _apply_scene_rect, frame_center, QRectF.center,
    OutputSize.rect, QPointF.eq, rect_contains, frame_w, frame_h.
  cbn [x1 y1 x2 y2 _guide_center_v _guide_center_h _guide_taskbar
       QPointF.x QPointF.y QRectF.x QRectF.y QRectF.width QRectF.height].
  set (w := Py.float (OutputSize.w (output_size self))).
  set (h := Py.float (OutputSize.h (output_size self))).
  pose proof (div_2_0 w) as Dw. pose proof (div_2_0 h) as Dh.
  pose proof (half w) as Hw2. pose proof (half h) as Hh2.
  pose proof (half (w + 300 * 2)) as Hw3. pose proof (half (h + 300 * 2)) as Hh3.
  split; [reflexivity |]. split; [reflexivity |].
  split; [split; lra |]. split; [split; lra |].
  split; [repeat split; lra |]. split; [repeat split; try reflexivity; lra |].
  split.
  - intros H0 H48.
    assert (0 <= w) by (unfold w, Py.float; rewrite Zle_Qle in H0; exact H0).
    assert (48 <= h) by (unfold h, Py.float; rewrite Zle_Qle in H48; exact H48).
    repeat constructor; cbn [x1 y1 x2 y2]; lra.
  - intros item L. split.
    + rewrite (fit_image_contain_unfold _ _ L).
      destruct (apply_image_scale_and_center_centred _ _ _ L (fit_contain_scale_pos _ _ L))
        as (p & -> & Hx & Hy).
      eexists. split; [reflexivity |].
      unfold image_centre, scaled_w, scaled_h.
      cbn [MovableImageItem.pos MovableImageItem.scale MovableImageItem.pixmap
           QPointF.x QPointF.y].
      rewrite Hx, Hy. fold w h. unfold frame_w, frame_h. fold w h.
      split; field.
    + pose proof L as (Hi & _).
      pose proof (scaled_w_pos _ _ L). pose proof (scaled_h_pos _ _ L).
      pose proof (frame_w_pos _ _ L) as Fw. pose proof (frame_h_pos _ _ L) as Fh.
      unfold align_center. rewrite Hi. cbv zeta.
      erewrite clamp_image_pos_unfold by reflexivity.
      eexists. split; [reflexivity |].
      unfold image_centre, _scaled_image_size.
      cbn [MovableImageItem.pos MovableImageItem.setPos fst snd QPointF.x QPointF.y].
      change (frame_w (set_image_item self ?i)) with (frame_w self).
      change (frame_h (set_image_item self ?i)) with (frame_h self).
      change (scaled_w (MovableImageItem.setPos item ?q)) with (scaled_w item).
      change (scaled_h (MovableImageItem.setPos item ?q)) with (scaled_h item).
      fold (scaled_w item) (scaled_h item) (frame_w self) (frame_h self).
      change (scaled_w (MovableImageItem.setPos ?i ?q)) with (scaled_w item).
      change (scaled_h (MovableImageItem.setPos ?i ?q)) with (scaled_h item).
      rewrite !clamp_code_centred by assumption.
      unfold frame_w, frame_h. fold w h. split; field.
Qed.

Lemma guides_cross_at_frame_centre_witness :
  exists item',
    image_item (align_center scenario_clamp) = Some item' /\
    QPointF.eq (image_centre item') (QPointF.mk 960 540).
Proof.
  assert (L : loaded scenario_clamp
                (MovableImageItem.mk (QPixmap.mk 100 100) 1 (QPointF.mk 2000 0))).
  { split; [reflexivity | vm_compute; repeat split; reflexivity]. }
  destruct (proj2 (proj2 (proj2 (proj2 (proj2 (proj2 (proj2 (proj2
              (guides_cross_at_frame_centre scenario_clamp))))))) _ L))
    as (it & Hi & Hx & Hy).
  exists it. split; [exact Hi |].
  split; [rewrite Hx | rewrite Hy]; vm_compute; reflexivity.
Defined.

(** ** Wheel events *)




